(** * OpenVc: the wake-word patterns and the session loop of [OpenVC.py]

    A shallow embedding of the script: Python strings are lists of Unicode
    code points, the two regular expressions are run by a small backtracking
    matcher that follows CPython's [re] on the fragment they use, and the
    three I/O functions thread a world (files, log, recorded calls) through
    an exception monad.  The outcomes of the external collaborators
    (microphone, HTTP endpoints, audio playback) are inputs of the model. *)

From Stdlib Require Import NArith ZArith Ascii String List Bool Lia DecimalString.
From stdpp Require Import gmap strings list.

Local Open Scope N_scope.
Set Warnings "-register-all".

(** ** Python [str]: a sequence of code points *)

Abbreviation pystr := (list N).

(** An ASCII literal of the source as a [str]. *)
Fixpoint str (s : string) : pystr :=
  match s with
  | EmptyString => []
  | String a s' => N_of_ascii a :: str s'
  end.

(** ** Character classes

    Below 128 CPython answers from fixed ASCII rules; above, from the
    Unicode database it was built with.  The database is not part of the
    repository, so it is a parameter of the model. *)

Record unicode_db := UnicodeDb {
  uni_isalnum : N -> bool;   (* str.isalnum on one code point *)
  uni_tolower : N -> N;      (* simple lowercase mapping *)
  uni_casefold : N -> N      (* simple case folding *)
}.

Definition ascii_isalpha (c : N) : bool :=
  (65 <=? c) && (c <=? 90) || (97 <=? c) && (c <=? 122).

Definition ascii_isalnum (c : N) : bool :=
  (48 <=? c) && (c <=? 57) || ascii_isalpha c.

Definition ascii_tolower (c : N) : N :=
  if (65 <=? c) && (c <=? 90) then c + 32 else c.

Definition isalnum (db : unicode_db) (c : N) : bool :=
  if c <? 128 then ascii_isalnum c else uni_isalnum db c.

Definition tolower (db : unicode_db) (c : N) : N :=
  if c <? 128 then ascii_tolower c else uni_tolower db c.

Definition casefold (db : unicode_db) (c : N) : N :=
  if c <? 128 then ascii_tolower c else uni_casefold db c.

(** [\w] of a [str] pattern: alphanumeric or underscore. *)
Definition is_word (db : unicode_db) (c : N) : bool :=
  isalnum db c || (c =? 95).

(** [\W] *)
Definition not_word (db : unicode_db) (c : N) : bool := negb (is_word db c).

(** [str.isspace] on one code point (CPython's [_PyUnicode_IsWhitespace]). *)
Definition isspace (c : N) : bool :=
  (9 <=? c) && (c <=? 13) || (28 <=? c) && (c <=? 32)
  || (c =? 133) || (c =? 160) || (c =? 5760)
  || (8192 <=? c) && (c <=? 8202)
  || (c =? 8232) || (c =? 8233) || (c =? 8239) || (c =? 8287) || (c =? 12288).

Fixpoint lstrip (p : N -> bool) (s : pystr) : pystr :=
  match s with
  | c :: s' => if p c then lstrip p s' else s
  | [] => []
  end.

Definition rstrip (p : N -> bool) (s : pystr) : pystr :=
  rev (lstrip p (rev s)).

(** [s.strip()] *)
Definition strip (s : pystr) : pystr := rstrip isspace (lstrip isspace s).

(** ** The fragment of [re] used by the two patterns *)

Inductive atom :=
| Literal (a : ascii)    (* an ordinary character of the pattern *)
| Not_word.              (* \W *)

Inductive item :=
| At_beginning           (* ^ *)
| At_end                 (* $ *)
| One (a : atom)
| Max_repeat (a : atom). (* a*  (greedy) *)

(** Parser for the fragment; anything else is not supported. *)
Definition after_atom (a : atom) (rest : string) : item * string :=
  match rest with
  | String "*" rest' => (Max_repeat a, rest')
  | _ => (One a, rest)
  end.

Definition is_special (a : ascii) : bool :=
  existsb (Ascii.eqb a)
    ["."; "^"; "$"; "*"; "+"; "?"; "{"; "}"; "["; "]"; "\"; "|"; "("; ")"]%char.

Fixpoint parse_fuel (fuel : nat) (p : string) : option (list item) :=
  match fuel with
  | O => None
  | S fuel' =>
    match p with
    | EmptyString => Some []
    | String "^" rest => cons At_beginning <$> parse_fuel fuel' rest
    | String "$" rest => cons At_end <$> parse_fuel fuel' rest
    | String "\" (String "W" rest) =>
        let '(i, rest') := after_atom Not_word rest in
        cons i <$> parse_fuel fuel' rest'
    | String a rest =>
        if is_special a then None
        else let '(i, rest') := after_atom (Literal a) rest in
             cons i <$> parse_fuel fuel' rest'
    end
  end.

Definition parse (p : string) : option (list item) :=
  parse_fuel (S (String.length p)) p.

(** Lowercase letters with the same uppercase as another lowercase letter
    ([_ignorecase_fixes] of [sre_compile]); rows with an ASCII key. *)
Definition ignorecase_fixes (lo : N) : list N :=
  if lo =? 105 then [305]        (* i, dotless i *)
  else if lo =? 115 then [383]   (* s, long s *)
  else [].

(** One character against one atom.  Under IGNORECASE a cased literal is
    compared after lowering the subject character, against its lowercase
    and the fixes of that lowercase. *)
Definition atom_matches (db : unicode_db) (ignorecase : bool) (a : atom) (c : N) : bool :=
  match a with
  | Not_word => not_word db c
  | Literal x =>
      let av := N_of_ascii x in
      if ignorecase && ascii_isalpha av then
        let lo := ascii_tolower av in
        existsb (N.eqb (tolower db c)) (lo :: ignorecase_fixes lo)
      else c =? av
  end.

(** [$] without MULTILINE: at the end, or before a newline that ends the
    string. *)
Definition at_end (s : pystr) : bool :=
  match s with
  | [] => true
  | [10] => true
  | _ => false
  end.

(** Greedy repetition of a one-character test [m], then the rest of the
    pattern [k]: take one more character if it passes and the rest matches
    after it, otherwise stop here. *)
Fixpoint repeat_then (m : N -> bool) (k : bool -> pystr -> bool)
    (start : bool) (s : pystr) : bool :=
  match s with
  | c :: s' => (m c && repeat_then m k false s') || k start s
  | [] => k start []
  end.

(** Backtracking matcher: [start] tells whether nothing has been consumed
    yet, [s] is what remains of the subject. *)
Fixpoint run (db : unicode_db) (ic : bool) (p : list item) (start : bool) (s : pystr)
  {struct p} : bool :=
  match p with
  | [] => true
  | At_beginning :: p' => start && run db ic p' start s
  | At_end :: p' => at_end s && run db ic p' start s
  | One a :: p' =>
      match s with
      | c :: s' => atom_matches db ic a c && run db ic p' false s'
      | [] => false
      end
  | Max_repeat a :: p' =>
      repeat_then (atom_matches db ic a) (run db ic p') start s
  end.

(** A compiled pattern: its items and the IGNORECASE flag. *)
Record pattern := Pattern { items : list item; ignorecase : bool }.

Definition re_compile (p : string) (ic : bool) : pattern :=
  Pattern (default [] (parse p)) ic.

(** Truth value of [p.match(s)]: the pattern matches at the beginning of
    [s]. *)
Definition re_match (db : unicode_db) (p : pattern) (s : pystr) : bool :=
  run db (ignorecase p) (items p) true s.

(** Source lines 179-180. *)
Definition stop_pattern : pattern := re_compile "^\W*stop\W*$" true.
Definition start_pattern : pattern := re_compile "^\W*start\W*$" true.


(** The spec's WakeWordMatcher.  The script has no such function: the loop
    tests the stop pattern, then the start pattern. *)
Inductive wake := Stop | Start | Other.

Definition classify (db : unicode_db) (t : pystr) : wake :=
  if re_match db stop_pattern t then Stop
  else if re_match db start_pattern t then Start
  else Other.

(** ** The words of the specification

    "Trimmed of surrounding non-word characters": *)
Definition strip_nonword (db : unicode_db) (t : pystr) : pystr :=
  rstrip (not_word db) (lstrip (not_word db) t).

(** "compared case-insensitively, equals exactly the word [w]": the same
    code points after simple case folding. *)
Definition exact_word (db : unicode_db) (w : string) (t : pystr) : Prop :=
  map (casefold db) (strip_nonword db t) = map (casefold db) (str w).

Definition exact_wordb (db : unicode_db) (w : string) (t : pystr) : bool :=
  bool_decide (map (casefold db) (strip_nonword db t) = map (casefold db) (str w)).

(** Facts of the Unicode database the wake words depend on: which code
    points beyond ASCII lower or fold into ASCII, and the long s. *)
Record unicode_laws (db : unicode_db) : Prop := {
  lower_into_ascii : forall c, 128 <= c -> uni_tolower db c < 128 ->
    (c = 304 /\ uni_tolower db c = 105) \/ (c = 8490 /\ uni_tolower db c = 107);
  lower_long_s : forall c, 128 <= c -> (uni_tolower db c = 383 <-> c = 383);
  fold_into_ascii : forall c, 128 <= c -> uni_casefold db c < 128 ->
    (c = 383 /\ uni_casefold db c = 115) \/ (c = 8490 /\ uni_casefold db c = 107);
  fold_long_s : uni_casefold db 383 = 115;
  alnum_long_s : uni_isalnum db 383 = true
}.

(** An excerpt of the database (Latin-1 letters, dotted capital I, long s,
    Kelvin sign), enough to run the model on concrete transcripts. *)
Definition latin1_upper (c : N) : bool :=
  (192 <=? c) && (c <=? 222) && negb (c =? 215).

Definition latin1_lower (c : N) : bool :=
  (223 <=? c) && (c <=? 255) && negb (c =? 247).

Definition excerpt_db : unicode_db := {|
  uni_isalnum c :=
    latin1_upper c || latin1_lower c
    || existsb (N.eqb c) [170; 178; 179; 181; 185; 186; 188; 189; 190; 304; 305; 383; 8490];
  uni_tolower c :=
    if latin1_upper c then c + 32
    else if c =? 304 then 105
    else if c =? 8490 then 107
    else c;
  uni_casefold c :=
    if latin1_upper c then c + 32
    else if c =? 181 then 956
    else if c =? 383 then 115
    else if c =? 8490 then 107
    else c
|}.

(** ** Exceptions, HTTP responses, JSON *)

Inductive exn_type :=
| OSError | FileNotFoundError | WaitTimeoutError | RequestException | HTTPError
| JSONDecodeError | KeyError | IndexError | TypeError | AttributeError
| CouldntDecodeError.

(** An exception object: its class and [str(e)]. *)
Record exn := Exception { exn_class : exn_type; exn_str : pystr }.

Inductive result (A : Type) :=
| Ok (a : A)
| Raise (e : exn).
Arguments Ok {A} a.
Arguments Raise {A} e.

Inductive jvalue :=
| JNull
| JBool (b : bool)
| JNumber (mantissa exponent : Z)       (* mantissa * 10^exponent *)
| JString (s : pystr)
| JArray (l : list jvalue)
| JObject (l : list (pystr * jvalue)).  (* the items of the dict, keys distinct *)

(** What the script reads of a [requests.Response]: [r.json()] is [None]
    when the body is not JSON. *)
Record response := Response {
  status_code : N;
  reason : pystr;
  body_text : pystr;
  content : list Byte.byte;
  body_json : option jvalue
}.

Inductive part :=
| File_part (filename : string) (data : list Byte.byte)
| Text_part (value : pystr).

Inductive request_body :=
| Body_json (j : jvalue)
| Body_files (fields : list (string * part)).

(** ** The world and the monad of the script *)

Inductive level := INFO | ERROR.

Inductive event :=
| Log (l : level) (msg : pystr)
| Stdout (msg : pystr)
| Post (url : string) (headers : list (string * pystr)) (body : request_body)
                                         (* a call of [requests.post] *)
| Play
| Call_text_to_speech (text : pystr)     (* entry of [text_to_speech] *)
| Call_query_llm (prompt : pystr).       (* entry of [query_llm] *)

Record world := World {
  files : gmap string (list Byte.byte);  (* the working directory *)
  trace : list event                     (* what happened so far, oldest first *)
}.

Definition M (A : Type) : Type := world -> result A * world.

Definition ret {A} (a : A) : M A := fun w => (Ok a, w).

Definition raise {A} (e : exn) : M A := fun w => (Raise e, w).

Definition bind {A B} (m : M A) (k : A -> M B) : M B :=
  fun w =>
    match m w with
    | (Ok a, w') => k a w'
    | (Raise e, w') => (Raise e, w')
    end.

Notation "'let*' x ':=' m 'in' k" := (bind m (fun x => k))
  (at level 10, x name, m at level 100, k at level 200).

(** [try: body / except Exception as e: handler e] *)
Definition try_except {A} (body : M A) (handler : exn -> M A) : M A :=
  fun w =>
    match body w with
    | (Ok a, w') => (Ok a, w')
    | (Raise e, w') => handler e w'
    end.

(** [try: body / finally: cleanup]: the cleanup runs on both exits; an
    exception of the cleanup replaces the outcome of the body. *)
Definition try_finally {A} (body : M A) (cleanup : M unit) : M A :=
  fun w =>
    match body w with
    | (r, w') =>
        match cleanup w' with
        | (Ok _, w'') => (r, w'')
        | (Raise e, w'') => (Raise e, w'')
        end
    end.

Definition emit (e : event) : M unit :=
  fun w => (Ok tt, World (files w) (trace w ++ [e])).

Definition logging_info (msg : pystr) : M unit := emit (Log INFO msg).
Definition logging_error (msg : pystr) : M unit := emit (Log ERROR msg).

(** The outcome of a call into a collaborator, given by the environment. *)
Definition external {A} (outcome : result A) : M A := fun w => (outcome, w).

(** [open(path, "wb")] and [write], and [Path.write_bytes], in a working
    directory that can be written to: the file is created or replaced.
    A write that fails is outside the model, and so is what a pass that
    met one would leave behind. *)
Definition write_bytes (path : string) (data : list Byte.byte) : M unit :=
  fun w => (Ok tt, World (<[path := data]> (files w)) (trace w)).

Definition read_bytes (path : string) : M (list Byte.byte) :=
  fun w =>
    match files w !! path with
    | Some data => (Ok data, w)
    | None => (Raise (Exception FileNotFoundError (str path)), w)
    end.

(** [os.remove] and [Path.unlink] *)
Definition remove (path : string) : M unit :=
  fun w =>
    match files w !! path with
    | Some _ => (Ok tt, World (delete path (files w)) (trace w))
    | None => (Raise (Exception FileNotFoundError (str path)), w)
    end.

Definition decimal (n : N) : pystr :=
  str (DecimalString.NilEmpty.string_of_uint (N.to_uint n)).

(** [requests.post]: the call is recorded with the arguments the script
    passes (URL, headers, body); what the library then does with them,
    redirects it may follow included, and the answer it returns or the
    exception it raises are the environment's. *)
Definition requests_post (url : string) (headers : list (string * pystr))
    (body : request_body) (outcome : result response) : M response :=
  let* _ := emit (Post url headers body) in
  external outcome.

(** [Response.raise_for_status] of [requests]: an [HTTPError] for a 4xx or
    a 5xx status. *)
Definition raise_for_status (url : string) (r : response) : M unit :=
  if (400 <=? status_code r) && (status_code r <? 500) then
    raise (Exception HTTPError
             (decimal (status_code r) ++ str " Client Error: " ++ reason r
              ++ str " for url: " ++ str url))
  else if (500 <=? status_code r) && (status_code r <? 600) then
    raise (Exception HTTPError
             (decimal (status_code r) ++ str " Server Error: " ++ reason r
              ++ str " for url: " ++ str url))
  else ret tt.

(** [r.json()].  The text of the [JSONDecodeError] names what was expected
    and where, which depends on the body; only its usual beginning is kept. *)
Definition response_json (r : response) : M jvalue :=
  match body_json r with
  | Some j => ret j
  | None => raise (Exception JSONDecodeError (str "Expecting value"))
  end.

Fixpoint assoc (k : pystr) (l : list (pystr * jvalue)) : option jvalue :=
  match l with
  | [] => None
  | (k', v) :: l' => if bool_decide (k = k') then Some v else assoc k l'
  end.

(** The Python type of a decoded JSON value, as error messages name it;
    a number written without fraction or exponent decodes to an [int]. *)
Definition type_name (j : jvalue) : string :=
  match j with
  | JNull => "NoneType"
  | JBool _ => "bool"
  | JNumber _ e => if (e =? 0)%Z then "int" else "float"
  | JString _ => "str"
  | JArray _ => "list"
  | JObject _ => "dict"
  end.

Definition not_subscriptable (j : jvalue) : exn :=
  Exception TypeError (str "'" ++ str (type_name j) ++ str "' object is not subscriptable").

(** [j[key]] for a string key. *)
Definition getitem_key (j : jvalue) (key : string) : M jvalue :=
  match j with
  | JObject l =>
      match assoc (str key) l with
      | Some v => ret v
      | None => raise (Exception KeyError (str "'" ++ str key ++ str "'"))
      end
  | JArray _ =>
      raise (Exception TypeError (str "list indices must be integers or slices, not str"))
  | JString _ =>
      raise (Exception TypeError (str "string indices must be integers, not 'str'"))
  | _ => raise (not_subscriptable j)
  end.

(** [j[0]] *)
Definition getitem_0 (j : jvalue) : M jvalue :=
  match j with
  | JArray (x :: _) => ret x
  | JArray [] => raise (Exception IndexError (str "list index out of range"))
  | JString (c :: _) => ret (JString [c])
  | JString [] => raise (Exception IndexError (str "string index out of range"))
  | JObject _ => raise (Exception KeyError (str "0"))
  | _ => raise (not_subscriptable j)
  end.

(** [j.strip()] *)
Definition jstrip (j : jvalue) : M pystr :=
  match j with
  | JString s => ret (strip s)
  | _ =>
      raise (Exception AttributeError
               (str "'" ++ str (type_name j) ++ str "' object has no attribute 'strip'"))
  end.

(** ** Configuration (source lines 36-43) *)

Definition sys_msg : pystr :=
  str "You are OpenVc, an open-source, cloud-powered voice chat system template. "
  ++ str "You receive spoken prompts via STT (Whisper) and reply via TTS (PlayAI). "
  ++ str "Keep messages short and simple for voice chat.".

(** The two module-level values the functions read: the API key taken from
    the process environment and the name typed at startup. *)
Record globals := Globals {
  groq_api_key : pystr;
  recognized_user_name : pystr
}.

Definition bearer (g : globals) : string * pystr :=
  ("Authorization"%string, str "Bearer " ++ groq_api_key g).

(** ** 1) Speech to text (source lines 53-100) *)

(** What the microphone and the transcription endpoint do during one call:
    opening the microphone (constructor and entry of the [with] block),
    [adjust_for_ambient_noise], [listen] (the WAV data of the utterance, or
    the exception it raises, e.g. [WaitTimeoutError] when no speech starts
    within the timeout) and the answer to the upload. *)
Record capture_env := CaptureEnv {
  mic_open : result unit;
  mic_adjust : result unit;
  mic_listen : result (list Byte.byte);
  stt_answer : result response
}.

Definition waiting_for_voice : pystr := [128266] ++ str " Waiting for voice" ++ [8230].

Definition stt_url : string := "https://api.groq.com/openai/v1/audio/transcriptions".

(** The [timeout] argument (a float, 5.0 at the only call) acts through
    the outcome of [listen] alone and is left out. *)
Definition process_voice_input (g : globals) (env : capture_env) : M pystr :=
  let* _ := external (mic_open env) in
  let* _ := external (mic_adjust env) in
  let* _ := logging_info waiting_for_voice in
  let* heard :=
    try_except (let* audio := external (mic_listen env) in ret (Some audio))
      (fun e =>
         let* _ := logging_error (str "STT capture error: " ++ exn_str e) in
         ret None) in
  match heard with
  | None => ret []                                   (* return "" *)
  | Some audio =>
      let audio_path := "prompt.wav"%string in
      let* _ := write_bytes audio_path audio in
      try_finally
        (try_except
           (let* upload := read_bytes audio_path in
            let* r := requests_post stt_url [bearer g]
                        (Body_files
                           [("file"%string, File_part audio_path upload);
                            ("model"%string, Text_part (str "distil-whisper-large-v3-en"));
                            ("response_format"%string, Text_part (str "text"))])
                        (stt_answer env) in
            let* _ := raise_for_status stt_url r in
            let text := strip (body_text r) in
            let* _ := logging_info ([128100] ++ str " USER: " ++ text) in
            ret text)
           (fun e =>
              let* _ := logging_error (str "STT API error: " ++ exn_str e) in
              ret []))
        (remove audio_path)
  end.

(** ** 2) Text to speech (source lines 107-130) *)

(** The answer of the synthesis endpoint, and what decoding the WAV file
    ([AudioSegment.from_wav]) and playing it ([play]) do. *)
Record tts_env := TtsEnv {
  tts_answer : result response;
  tts_decode : result unit;
  tts_play : result unit
}.

Definition tts_url : string := "https://api.groq.com/openai/v1/audio/speech".

Definition json_headers (g : globals) : list (string * pystr) :=
  [bearer g; ("Content-Type"%string, str "application/json")].

Definition text_to_speech (g : globals) (env : tts_env) (text : pystr) : M unit :=
  let* _ := emit (Call_text_to_speech text) in
  let audio_path := "speech.wav"%string in
  let payload :=
    JObject [(str "model", JString (str "playai-tts"));
             (str "voice", JString (str "Atlas-PlayAI"));
             (str "input", JString text);
             (str "response_format", JString (str "wav"))] in
  let* r := requests_post tts_url (json_headers g) (Body_json payload) (tts_answer env) in
  if status_code r =? 200 then
    let* _ := write_bytes audio_path (content r) in
    let* _ := logging_info ([128264] ++ str " Playing: " ++ text) in
    let* _ := external (tts_decode env) in
    let* _ := external (tts_play env) in
    let* _ := emit Play in
    remove audio_path
  else
    logging_error (str "TTS API " ++ decimal (status_code r) ++ str ": "
                   ++ body_text r).

(** ** 3) LLM query (source lines 137-163) *)

Record chat_env := ChatEnv { chat_answer : result response }.

Definition chat_url : string := "https://api.groq.com/openai/v1/chat/completions".

Definition query_llm (g : globals) (env : chat_env) (prompt : pystr) : M pystr :=
  let* _ := emit (Call_query_llm prompt) in
  let max_tokens := 64%Z in
  let prompt_sys :=
    match recognized_user_name g with
    | [] => sys_msg
    | _ :: _ => sys_msg ++ str " The user's name is " ++ recognized_user_name g ++ str "."
    end in
  let payload :=
    JObject [(str "model", JString (str "llama-3.3-70b-versatile"));
             (str "messages",
              JArray [JObject [(str "role", JString (str "system"));
                               (str "content", JString prompt_sys)];
                      JObject [(str "role", JString (str "user"));
                               (str "content", JString prompt)]]);
             (str "max_tokens", JNumber max_tokens 0);
             (str "temperature", JNumber 7 (-1))] in
  let* r := requests_post chat_url (json_headers g) (Body_json payload) (chat_answer env) in
  let* _ := raise_for_status chat_url r in
  let* j := response_json r in
  let* choices := getitem_key j "choices" in
  let* choice := getitem_0 choices in
  let* message := getitem_key choice "message" in
  let* content := getitem_key message "content" in
  let* reply := jstrip content in
  let* _ := logging_info ([129302] ++ str " LLM: " ++ reply) in
  ret reply.

(** ** 4) Main: name input and wake-word loop (source lines 170-205) *)

(** What the collaborators do during one iteration of the loop.  An
    iteration calls [process_voice_input] once, and [query_llm] and
    [text_to_speech] at most once each. *)
Record iteration_env := IterationEnv {
  capture : capture_env;
  chat : chat_env;
  tts : tts_env
}.

Definition stop_ack : pystr :=
  str "Voice chat stopped. Say " ++ [8216] ++ str "start" ++ [8217] ++ str " to resume.".

Definition start_ack : pystr := str "Voice chat resumed.".

(** The body of [while True] below the capture (source lines 187-205),
    from the value of [listening_enabled] before it to its value when
    control returns to the top of the loop. *)
Definition handle (db : unicode_db) (g : globals) (env : iteration_env)
    (listening_enabled : bool) (raw : pystr) : M bool :=
  match raw with
  | [] => ret listening_enabled                                   (* continue *)
  | _ :: _ =>
      if listening_enabled && re_match db stop_pattern raw then
        let* _ := text_to_speech g (tts env) stop_ack in
        ret false                                                 (* continue *)
      else if negb listening_enabled && re_match db start_pattern raw then
        let* _ := text_to_speech g (tts env) start_ack in
        ret true                                                  (* continue *)
      else if listening_enabled then
        let* reply := query_llm g (chat env) raw in
        let* _ := text_to_speech g (tts env) reply in
        ret listening_enabled
      else ret listening_enabled
  end.

(** One pass through the body of [while True] (source lines 186-205). *)
Definition iteration (db : unicode_db) (g : globals) (env : iteration_env)
    (listening_enabled : bool) : M bool :=
  let* raw := process_voice_input g (capture env) in
  handle db g env listening_enabled raw.

(** The first iterations of the loop, one per element of [envs]; the loop
    itself has no exit but an exception. *)
Fixpoint main_loop (db : unicode_db) (g : globals) (envs : list iteration_env)
    (listening_enabled : bool) : M bool :=
  match envs with
  | [] => ret listening_enabled
  | env :: envs' =>
      let* listening_enabled' := iteration db g env listening_enabled in
      main_loop db g envs' listening_enabled'
  end.

(** Value given to [listening_enabled] before the loop (source line 182). *)
Definition initial_listening_enabled : bool := true.

(** The script from the name prompt on: [api_key] is the value read from
    the process environment, [typed] the line read by [input]. *)
Definition main (db : unicode_db) (api_key typed : pystr) (envs : list iteration_env)
  : M bool :=
  let* _ := emit (Stdout ([10145; 65039] ++ str "  Please enter your name: ")) in
  let name := strip typed in
  let g := Globals api_key name in
  let* _ :=
    match name with
    | _ :: _ => logging_info ([128075] ++ str " Welcome, " ++ name ++ str "!")
    | [] => logging_info ([128075] ++ str " Proceeding anonymously.")
    end in
  let listening_enabled := initial_listening_enabled in
  let* _ := logging_info ([9989] ++ str " OpenVc is now running. Say " ++ [8216]
                          ++ str "stop" ++ [8217] ++ str " to pause, " ++ [8216]
                          ++ str "start" ++ [8217] ++ str " to resume.") in
  main_loop db g envs listening_enabled.

(** The calls into the Speaker and the ChatClient recorded in a trace. *)
Definition is_call (e : event) : bool :=
  match e with
  | Call_text_to_speech _ | Call_query_llm _ => true
  | _ => false
  end.

Definition calls (w : world) : list event := List.filter is_call (trace w).

(** ** Definitions used in the statements and the proofs *)

(** The items of a run of ordinary characters. *)
Fixpoint literals (w : string) : list item :=
  match w with
  | EmptyString => []
  | String a w' => One (Literal a) :: literals w'
  end.

(** [cs] matches the characters of [w] one by one under IGNORECASE. *)
Fixpoint matches_word (db : unicode_db) (w : string) (cs : pystr) : Prop :=
  match w, cs with
  | EmptyString, [] => True
  | String a w', c :: cs' =>
      atom_matches db true (Literal a) c = true /\ matches_word db w' cs'
  | _, _ => False
  end.

Definition wake_letter (a : ascii) : Prop :=
  In a ["s"; "t"; "o"; "p"; "a"; "r"]%char.

Fixpoint wake_letters (w : string) : Prop :=
  match w with
  | EmptyString => True
  | String a w' => wake_letter a /\ wake_letters w'
  end.

(** The code points a wake letter stands for: itself, its capital, and for
    s the long s. *)
Definition letter_forms (a : ascii) (c : N) : Prop :=
  c = N_of_ascii a \/ c + 32 = N_of_ascii a \/ (a = "s"%char /\ c = 383).

(** A computation is quiet when it calls neither the Speaker nor the
    ChatClient. *)
Definition quiet {A} (m : M A) : Prop := forall w, calls (snd (m w)) = calls w.

(** The calls of [text_to_speech] that come back: the endpoint answered,
    and on a 200 the audio was decoded and played. *)
Definition speaker_returns (e : tts_env) : Prop :=
  exists r, tts_answer e = Ok r
            /\ (status_code r = 200 -> tts_decode e = Ok tt /\ tts_play e = Ok tt).

(** The regular turn: ask, then speak the reply. *)
Definition chat_turn (g : globals) (env : iteration_env) (raw : pystr) (st : bool)
  : M bool :=
  let* reply := query_llm g (chat env) raw in
  let* _ := text_to_speech g (tts env) reply in
  ret st.

(** Concrete collaborators, to run the model. *)
Definition empty_world : world := World ∅ [].

Definition demo_globals : globals := Globals (str "gsk_demo") (str "Alex").

Definition ok_response (body : string) (j : option jvalue) : response :=
  Response 200 (str "OK") (str body) [] j.

(** The microphone records an utterance and the endpoint transcribes it
    as [t]. *)
Definition heard (t : string) : capture_env :=
  CaptureEnv (Ok tt) (Ok tt) (Ok []) (Ok (ok_response t None)).

Definition speaker_up : tts_env := TtsEnv (Ok (ok_response "" None)) (Ok tt) (Ok tt).

Definition completion (reply : string) : jvalue :=
  JObject [(str "choices",
            JArray [JObject [(str "message",
                              JObject [(str "content", JString (str reply))])]])].

Definition chat_up (reply : string) : chat_env :=
  ChatEnv (Ok (ok_response "" (Some (completion reply)))).

Definition turn (t : string) : iteration_env :=
  IterationEnv (heard t) (chat_up "Hi Alex.") speaker_up.

(** No speech starts within the timeout: [listen] raises. *)
Definition silence : capture_env :=
  CaptureEnv (Ok tt) (Ok tt)
    (Raise (Exception WaitTimeoutError
              (str "listening timed out while waiting for phrase to start")))
    (Ok (ok_response "" None)).

Definition connection_refused : exn :=
  Exception RequestException (str "Connection refused").

Definition chat_down : iteration_env :=
  IterationEnv (heard "Hello, how are you?") (ChatEnv (Raise connection_refused)) speaker_up.

Definition no_audio_device : exn :=
  Exception OSError (str "No Default Output Device Available").

Definition wav_answer : response :=
  Response 200 (str "OK") [] [Byte.x52; Byte.x49; Byte.x46; Byte.x46] None.

Definition speaker_mute : tts_env :=
  TtsEnv (Ok wav_answer) (Ok tt) (Raise no_audio_device).

Definition no_microphone : exn :=
  Exception OSError (str "No Default Input Device Available").

(** The texts handed to the Speaker in a list of events. *)
Definition spoken (evs : list event) : list pystr :=
  flat_map (fun e => match e with Call_text_to_speech t => [t] | _ => [] end) evs.

(** ** Definitions for the further properties *)

(** A computation that leaves the working directory as it found it. *)
Definition keeps_files {A} (m : M A) : Prop :=
  forall w, files (snd (m w)) = files w.

(** Neither temporary file of the script is in the working directory. *)
Definition no_temp_files (w : world) : Prop :=
  files w !! "prompt.wav"%string = None /\ files w !! "speech.wav"%string = None.

(** A computation that only appends to the trace, and only events
    satisfying [P]. *)
Definition emits (P : event -> Prop) {A} (m : M A) : Prop :=
  forall w, exists new, trace (snd (m w)) = trace w ++ new /\ Forall P new.

(** The upload of [process_voice_input] for a recording [audio], as it
    appears in the trace. *)
Definition stt_request (g : globals) (audio : list Byte.byte) : event :=
  Post stt_url [bearer g]
    (Body_files
       [("file"%string, File_part "prompt.wav" audio);
        ("model"%string, Text_part (str "distil-whisper-large-v3-en"));
        ("response_format"%string, Text_part (str "text"))]).

(** The request of [text_to_speech] for [text], as it appears in the
    trace. *)
Definition tts_request (g : globals) (text : pystr) : event :=
  Post tts_url (json_headers g)
    (Body_json
       (JObject [(str "model", JString (str "playai-tts"));
                 (str "voice", JString (str "Atlas-PlayAI"));
                 (str "input", JString text);
                 (str "response_format", JString (str "wav"))])).


(** A working directory that holds a stale recording and a note. *)
Definition cluttered_world : world :=
  World (<["prompt.wav"%string := [Byte.x00]]> (<["notes.txt"%string := [Byte.x41]]> ∅)) [].

(** The synthesis endpoint refuses the request. *)
Definition speaker_quota : tts_env :=
  TtsEnv (Ok (Response 429 (str "Too Many Requests") (str "rate limit") [] None))
    (Ok tt) (Ok tt).

(** The system message [query_llm] sends: the base instruction, with a
    sentence naming the user when a name was typed. *)
Definition system_prompt (g : globals) : pystr :=
  match recognized_user_name g with
  | [] => sys_msg
  | _ :: _ => sys_msg ++ str " The user's name is " ++ recognized_user_name g ++ str "."
  end.

(** The request of [query_llm] for [prompt], as it appears in the trace. *)
Definition chat_request (g : globals) (prompt : pystr) : event :=
  Post chat_url (json_headers g)
    (Body_json
       (JObject [(str "model", JString (str "llama-3.3-70b-versatile"));
                 (str "messages",
                  JArray [JObject [(str "role", JString (str "system"));
                                   (str "content", JString (system_prompt g))];
                          JObject [(str "role", JString (str "user"));
                                   (str "content", JString prompt)]]);
                 (str "max_tokens", JNumber 64 0);
                 (str "temperature", JNumber 7 (-1))])).

(** [query_llm] raised an exception of class [c] right after its request. *)
Definition chat_raises (c : exn_type) (g : globals) (env : chat_env) (prompt : pystr)
    (w : world) : Prop :=
  exists e, exn_class e = c
    /\ query_llm g env prompt w =
         (Raise e, World (files w) (trace w ++ [Call_query_llm prompt; chat_request g prompt])).

(** A completion with two choices, padded with whitespace. *)
Definition two_choices : response :=
  Response 200 (str "OK") [] []
    (Some (JObject
       [(str "id", JString (str "cmpl-1"));
        (str "choices",
         JArray [JObject [(str "index", JNumber 0 0);
                          (str "message",
                           JObject [(str "role", JString (str "assistant"));
                                    (str "content", JString (str " Hello Alex! "))])];
                 JObject [(str "index", JNumber 1 0);
                          (str "message",
                           JObject [(str "content", JString (str "unused"))])]])])).

(** A completion whose content is null. *)
Definition null_content : response :=
  Response 200 (str "OK") [] []
    (Some (JObject
       [(str "choices",
         JArray [JObject [(str "message", JObject [(str "content", JNull)])]])])).

Definition is_post (e : event) : bool :=
  match e with
  | Post _ _ _ => true
  | _ => false
  end.

(** The events the script can add to the trace: anything that is not a
    request, and the three requests in the form the functions build them. *)
Definition script_event (g : globals) (e : event) : Prop :=
  is_post e = false
  \/ (exists audio, e = stt_request g audio)
  \/ (exists text, e = tts_request g text)
  \/ (exists prompt, e = chat_request g prompt).

(** A call of [requests.post] names one of the three endpoints and passes
    the key among its headers. *)
Definition post_call_is_authorised (g : globals) (e : event) : Prop :=
  match e with
  | Post url headers _ =>
      In url [stt_url; chat_url; tts_url]
      /\ In ("Authorization"%string, str "Bearer " ++ groq_api_key g) headers
  | _ => True
  end.

(** A request to the chat endpoint carries [sys] as its system message. *)
Definition chat_system_is (sys : pystr) (e : event) : Prop :=
  match e with
  | Post url _ body =>
      url = chat_url ->
      exists model user rest,
        body = Body_json
                 (JObject (model
                           :: (str "messages",
                               JArray [JObject [(str "role", JString (str "system"));
                                                (str "content", JString sys)];
                                       user])
                           :: rest))
  | _ => True
  end.

(** ASCII upper-casing of one code point. *)
Definition ascii_toupper (c : N) : N :=
  if (97 <=? c) && (c <=? 122) then c - 32 else c.


(** * Properties *)

(** ** Stripping *)

Section Strip.
Variable p : N -> bool.

Lemma lstrip_split (s : pystr) :
  exists pre, s = pre ++ lstrip p s /\ forallb p pre = true.
Proof.
  induction s as [|c s IH]; simpl.
  - exists []. split; reflexivity.
  - destruct (p c) eqn:Hc.
    + destruct IH as [pre [Heq Hpre]]. exists (c :: pre). simpl.
      rewrite Hc, Hpre. split; [now f_equal | reflexivity].
    + exists []. split; reflexivity.
Qed.

Lemma lstrip_head (s : pystr) c r : lstrip p s = c :: r -> p c = false.
Proof.
  induction s as [|d s IH]; simpl; [discriminate|].
  destruct (p d) eqn:Hd; [exact IH|].
  intros H. injection H as -> _. exact Hd.
Qed.

Lemma lstrip_app (pre r : pystr) :
  forallb p pre = true -> lstrip p (pre ++ r) = lstrip p r.
Proof.
  induction pre as [|c pre IH]; simpl; [reflexivity|].
  intros H. apply andb_true_iff in H as [Hc Hpre]. rewrite Hc. now apply IH.
Qed.

Lemma lstrip_keep c (r : pystr) : p c = false -> lstrip p (c :: r) = c :: r.
Proof. intros H. simpl. now rewrite H. Qed.

Lemma rstrip_split (s : pystr) :
  exists post, s = rstrip p s ++ post /\ forallb p post = true.
Proof.
  unfold rstrip. destruct (lstrip_split (rev s)) as [pre [Heq Hpre]].
  exists (rev pre). split.
  - rewrite <- rev_app_distr, <- Heq. now rewrite rev_involutive.
  - rewrite forallb_forall in *. intros x Hx. apply Hpre. now apply in_rev.
Qed.

Lemma rstrip_app_keep (w : pystr) c (post : pystr) :
  p c = false -> forallb p post = true -> rstrip p ((w ++ [c]) ++ post) = w ++ [c].
Proof.
  intros Hc Hpost. unfold rstrip.
  rewrite !rev_app_distr. simpl. rewrite lstrip_app.
  - rewrite lstrip_keep by exact Hc. simpl. now rewrite rev_involutive.
  - rewrite forallb_forall in *. intros x Hx. apply Hpost. now apply in_rev.
Qed.

Lemma rstrip_last (s w : pystr) c : rstrip p s = w ++ [c] -> p c = false.
Proof.
  unfold rstrip. intros H.
  assert (H' : lstrip p (rev s) = c :: rev w).
  { rewrite <- (rev_involutive (lstrip p (rev s))), H, rev_app_distr. reflexivity. }
  exact (lstrip_head _ _ _ H').
Qed.

(** Something surrounded by strippable characters, itself beginning and
    ending with characters that stay, is what stripping both ends gives. *)
Lemma strip_sandwich (pre post w : pystr) a z :
  forallb p pre = true -> forallb p post = true ->
  p a = false -> p z = false ->
  rstrip p (lstrip p (pre ++ (a :: w ++ [z]) ++ post)) = a :: w ++ [z].
Proof.
  intros Hpre Hpost Ha Hz.
  rewrite lstrip_app by exact Hpre.
  change ((a :: w ++ [z]) ++ post) with (a :: (w ++ [z]) ++ post).
  rewrite lstrip_keep by exact Ha.
  change (a :: (w ++ [z]) ++ post) with (((a :: w) ++ [z]) ++ post).
  now rewrite rstrip_app_keep.
Qed.

Lemma strip_both_split (s : pystr) :
  exists pre post, s = pre ++ rstrip p (lstrip p s) ++ post
                   /\ forallb p pre = true /\ forallb p post = true.
Proof.
  destruct (lstrip_split s) as [pre [H1 Hpre]].
  destruct (rstrip_split (lstrip p s)) as [post [H2 Hpost]].
  exists pre, post. repeat split; try assumption.
  now rewrite <- H2.
Qed.
End Strip.

(** ** The matcher on the wake-word patterns *)

Lemma repeat_then_spec m k start s :
  repeat_then m k start s = true <->
  exists pre rest, s = pre ++ rest /\ forallb m pre = true
    /\ k (match pre with [] => start | _ :: _ => false end) rest = true.
Proof.
  revert start. induction s as [|c s IH]; intros start; simpl.
  - split.
    + intros H. exists [], []. auto.
    + intros (pre & rest & Heq & _ & Hk).
      symmetry in Heq. apply app_eq_nil in Heq as [-> ->]. exact Hk.
  - rewrite orb_true_iff, andb_true_iff, IH. split.
    + intros [[Hc (pre & rest & -> & Hpre & Hk)] | Hk].
      * exists (c :: pre), rest. simpl. rewrite Hc, Hpre.
        repeat split. now destruct pre.
      * exists [], (c :: s). auto.
    + intros (pre & rest & Heq & Hpre & Hk). destruct pre as [|c' pre].
      * right. simpl in Heq. now subst rest.
      * left. simpl in Heq, Hpre. injection Heq as -> ->.
        apply andb_true_iff in Hpre as [Hc Hpre]. split; [exact Hc|].
        exists pre, rest. repeat split; try assumption. now destruct pre.
Qed.

Lemma at_end_cons c (s : pystr) :
  at_end (c :: s) = (c =? 10) && match s with [] => true | _ => false end.
Proof.
  destruct s as [|d s].
  - destruct (N.eqb_spec c 10) as [->|Hne]; [reflexivity|].
    destruct c as [|q]; [reflexivity|].
    do 4 (try destruct q as [q|q|]; try reflexivity); congruence.
  - rewrite andb_false_r.
    destruct c as [|q]; [reflexivity|].
    do 4 (try destruct q as [q|q|]; try reflexivity).
Qed.

Lemma newline_not_word db : not_word db 10 = true.
Proof. reflexivity. Qed.

(** After the word: any non-word characters up to the end. *)
Lemma run_tail db ic start (s : pystr) :
  run db ic [Max_repeat Not_word; At_end] start s = forallb (not_word db) s.
Proof.
  revert start. induction s as [|c s IH]; intros start; [reflexivity|].
  change (run db ic [Max_repeat Not_word; At_end] start (c :: s))
    with ((not_word db c && run db ic [Max_repeat Not_word; At_end] false s)
          || (at_end (c :: s) && true)).
  rewrite IH, at_end_cons. simpl forallb.
  destruct (N.eqb_spec c 10) as [->|_]; [|simpl; now rewrite orb_false_r].
  rewrite newline_not_word. destruct s; simpl; [reflexivity|].
  now rewrite orb_false_r.
Qed.

Lemma run_word db w start (s : pystr) :
  run db true (literals w ++ [Max_repeat Not_word; At_end]) start s = true <->
  exists cs post, s = cs ++ post /\ matches_word db w cs
                  /\ forallb (not_word db) post = true.
Proof.
  revert start s. induction w as [|a w IH]; intros start s.
  - simpl literals. simpl app. rewrite run_tail. split.
    + intros H. exists [], s. simpl. auto.
    + intros (cs & post & -> & Hw & Hpost). destruct cs; [exact Hpost|contradiction].
  - simpl literals. simpl app. destruct s as [|c s].
    + simpl. split; [discriminate|].
      intros (cs & post & Heq & Hw & _). symmetry in Heq.
      apply app_eq_nil in Heq as [-> ->]. contradiction.
    + change (run db true (One (Literal a) :: literals w ++ [Max_repeat Not_word; At_end])
                start (c :: s))
        with (atom_matches db true (Literal a) c
              && run db true (literals w ++ [Max_repeat Not_word; At_end]) false s).
      rewrite andb_true_iff, IH. split.
      * intros [Hc (cs & post & -> & Hw & Hpost)].
        exists (c :: cs), post. simpl. auto.
      * intros (cs & post & Heq & Hw & Hpost). destruct cs as [|c' cs]; [contradiction|].
        simpl in Heq. injection Heq as -> ->. destruct Hw as [Hc Hw].
        split; [exact Hc|]. exists cs, post. auto.
Qed.

(** A pattern [^\W*w\W*$] matches exactly the strings made of non-word
    characters, then characters matching [w], then non-word characters. *)
Lemma wake_pattern_spec db w (t : pystr) :
  re_match db
    (Pattern (At_beginning :: Max_repeat Not_word
              :: literals w ++ [Max_repeat Not_word; At_end]) true) t = true <->
  exists pre cs post, t = pre ++ cs ++ post
    /\ forallb (not_word db) pre = true /\ matches_word db w cs
    /\ forallb (not_word db) post = true.
Proof.
  unfold re_match. simpl items. simpl ignorecase.
  change (run db true (At_beginning :: Max_repeat Not_word
                       :: literals w ++ [Max_repeat Not_word; At_end]) true t)
    with (true && repeat_then (not_word db)
                    (run db true (literals w ++ [Max_repeat Not_word; At_end])) true t).
  rewrite andb_true_l, repeat_then_spec. split.
  - intros (pre & rest & -> & Hpre & Hk).
    apply run_word in Hk as (cs & post & -> & Hw & Hpost).
    exists pre, cs, post. auto.
  - intros (pre & cs & post & -> & Hpre & Hw & Hpost).
    exists pre, (cs ++ post). repeat split; try assumption.
    apply run_word. exists cs, post. auto.
Qed.

(** ** The letters of the wake words *)

Ltac by_cases :=
  repeat match goal with
  | |- context [N.leb ?a ?b] => destruct (N.leb_spec a b)
  | |- context [N.ltb ?a ?b] => destruct (N.ltb_spec a b)
  | |- context [N.eqb ?a ?b] => destruct (N.eqb_spec a b)
  end; simpl.

Ltac norm_letter :=
  repeat match goal with
  | |- context [N_of_ascii ?a] =>
      let n := eval vm_compute in (N_of_ascii a) in change (N_of_ascii a) with n
  | |- context [ascii_isalpha ?n] =>
      let b := eval vm_compute in (ascii_isalpha n) in change (ascii_isalpha n) with b
  | |- context [ascii_tolower ?n] =>
      let m := eval vm_compute in (ascii_tolower n) in change (ascii_tolower n) with m
  | |- context [ignorecase_fixes ?n] =>
      let l := eval vm_compute in (ignorecase_fixes n) in
      change (ignorecase_fixes n) with l
  end; cbn [andb existsb].

Ltac each_wake_letter H :=
  unfold wake_letter in H; simpl in H;
  repeat (destruct H as [H|H]; [subst|]); [..|contradiction].

Section Letters.
Variable db : unicode_db.
Hypothesis laws : unicode_laws db.

Lemma tolower_ascii_or c l :
  l < 128 -> l <> 105 -> l <> 107 ->
  (tolower db c = l <-> c < 128 /\ ascii_tolower c = l).
Proof.
  intros Hl Hi Hk. unfold tolower. destruct (N.ltb_spec c 128) as [Hc|Hc].
  - tauto.
  - split; [|lia]. intros H.
    destruct (lower_into_ascii db laws c Hc) as [[_ E]|[_ E]]; lia.
Qed.

Lemma casefold_ascii_or c l :
  l < 128 -> l <> 115 -> l <> 107 ->
  (casefold db c = l <-> c < 128 /\ ascii_tolower c = l).
Proof.
  intros Hl Hi Hk. unfold casefold. destruct (N.ltb_spec c 128) as [Hc|Hc].
  - tauto.
  - split; [|lia]. intros H.
    destruct (fold_into_ascii db laws c Hc) as [[_ E]|[_ E]]; lia.
Qed.

Lemma ascii_tolower_letter c l :
  97 <= l <= 122 -> (c < 128 /\ ascii_tolower c = l <-> c = l \/ c + 32 = l).
Proof. intros Hl. unfold ascii_tolower. by_cases; lia. Qed.

Lemma atom_matches_forms a c :
  wake_letter a ->
  (atom_matches db true (Literal a) c = true <-> letter_forms a c).
Proof.
  intros Ha. unfold letter_forms, atom_matches.
  each_wake_letter Ha; cbv zeta; norm_letter.
  all: rewrite ?orb_false_r, ?orb_true_iff, ?N.eqb_eq.
  2-6: rewrite tolower_ascii_or by lia; rewrite ascii_tolower_letter by lia;
       intuition discriminate.
  (* s *)
  split.
  - intros [H|H].
    + apply tolower_ascii_or in H; [|lia..].
      apply ascii_tolower_letter in H; [|lia]. tauto.
    + unfold tolower in H. destruct (N.ltb_spec c 128) as [Hc|Hc].
      * unfold ascii_tolower in H. revert H. by_cases; lia.
      * apply (lower_long_s db laws c Hc) in H. auto.
  - intros [H|[H|[_ H]]].
    + left. apply tolower_ascii_or; [lia..|]. apply ascii_tolower_letter; lia.
    + left. apply tolower_ascii_or; [lia..|]. apply ascii_tolower_letter; lia.
    + right. subst c. unfold tolower. simpl. now apply (lower_long_s db laws).
Qed.

Lemma casefold_forms a c :
  wake_letter a -> (casefold db c = N_of_ascii a <-> letter_forms a c).
Proof.
  intros Ha. unfold letter_forms. each_wake_letter Ha; norm_letter.
  2-6: rewrite casefold_ascii_or by lia; rewrite ascii_tolower_letter by lia;
       intuition discriminate.
  (* s *)
  unfold casefold. destruct (N.ltb_spec c 128) as [Hc|Hc].
  - pose proof (ascii_tolower_letter c 115 ltac:(lia)) as E. split.
    + intros H. apply proj1 in E. specialize (E (conj Hc H)). tauto.
    + intros [H|[H|[_ H]]]; [apply E; auto..|lia].
  - split.
    + intros H. destruct (fold_into_ascii db laws c Hc) as [[E _]|[_ E]]; [lia|auto|lia].
    + intros [H|[H|[_ H]]]; [lia..|]. subst c. apply (fold_long_s db laws).
Qed.

Lemma forms_is_word a c : wake_letter a -> letter_forms a c -> is_word db c = true.
Proof.
  intros Ha [H|[H|[_ H]]].
  - subst c. each_wake_letter Ha; reflexivity.
  - each_wake_letter Ha; revert H; norm_letter; intros H.
    all: match type of H with ?x + 32 = ?n =>
           let m := eval vm_compute in (n - 32) in
           assert (E : x = m) by lia; subst x; reflexivity end.
  - subst c. unfold is_word, isalnum. simpl. now rewrite (alnum_long_s db laws).
Qed.

Lemma matches_word_casefold w (cs : pystr) :
  wake_letters w -> (matches_word db w cs <-> map (casefold db) cs = str w).
Proof.
  revert cs. induction w as [|a w IH]; intros cs Hw.
  - destruct cs; simpl; [tauto|]. split; [contradiction|discriminate].
  - destruct Hw as [Ha Hw]. destruct cs as [|c cs]; cbn [matches_word map str].
    + split; [contradiction|discriminate].
    + rewrite (IH cs Hw), atom_matches_forms, <- casefold_forms by exact Ha.
      split.
      * intros [-> ->]. reflexivity.
      * intros H. injection H as H1 H2. auto.
Qed.

Lemma matches_word_all_word w (cs : pystr) :
  wake_letters w -> matches_word db w cs ->
  forallb (fun c => negb (not_word db c)) cs = true.
Proof.
  revert cs. induction w as [|a w IH]; intros cs Hw Hm.
  - destruct cs; [reflexivity|contradiction].
  - destruct Hw as [Ha Hw]. destruct cs as [|c cs]; [contradiction|].
    destruct Hm as [Hc Hm]. simpl. rewrite (IH cs Hw Hm), andb_true_r.
    unfold not_word. rewrite negb_involutive.
    apply (forms_is_word a); [exact Ha|]. now apply atom_matches_forms.
Qed.

Lemma casefold_wake_word w : wake_letters w -> map (casefold db) (str w) = str w.
Proof.
  induction w as [|a w IH]; intros Hw; [reflexivity|].
  destruct Hw as [Ha Hw]. simpl. rewrite (IH Hw). f_equal.
  each_wake_letter Ha; reflexivity.
Qed.
End Letters.

Lemma strip_sandwich_all (p : N -> bool) (pre w post : pystr) :
  forallb p pre = true -> forallb p post = true ->
  forallb (fun c => negb (p c)) w = true ->
  rstrip p (lstrip p (pre ++ w ++ post)) = w.
Proof.
  intros Hpre Hpost Hw. destruct w as [|a w].
  - simpl. rewrite lstrip_app by exact Hpre.
    destruct (lstrip_split p post) as [pre' [Heq _]].
    destruct (lstrip p post) as [|c r] eqn:E; [reflexivity|].
    apply lstrip_head in E. rewrite forallb_forall in Hpost.
    rewrite Hpost in E; [discriminate|]. rewrite Heq. apply in_or_app. right. now left.
  - destruct (exists_last (l := a :: w)) as [w' [z E]]; [discriminate|].
    assert (Hz : p z = false).
    { rewrite forallb_forall in Hw. apply negb_true_iff. apply Hw.
      rewrite E. apply in_or_app. right. now left. }
    assert (Ha : p a = false).
    { simpl in Hw. apply andb_true_iff in Hw as [Ha _]. now apply negb_true_iff. }
    destruct w' as [|a' w'].
    + simpl in E. injection E as -> ->.
      rewrite lstrip_app by exact Hpre. simpl app.
      rewrite lstrip_keep by exact Hz.
      exact (rstrip_app_keep p [] z post Hz Hpost).
    + simpl in E. injection E as <- ->.
      exact (strip_sandwich p pre post w' a z Hpre Hpost Ha Hz).
Qed.

(** The two source patterns, as parsed. *)
Example stop_pattern_items :
  stop_pattern =
    Pattern [At_beginning; Max_repeat Not_word;
             One (Literal "s"); One (Literal "t"); One (Literal "o"); One (Literal "p");
             Max_repeat Not_word; At_end] true.
Proof. reflexivity. Qed.

Example start_pattern_items :
  start_pattern =
    Pattern [At_beginning; Max_repeat Not_word;
             One (Literal "s"); One (Literal "t"); One (Literal "a"); One (Literal "r");
             One (Literal "t"); Max_repeat Not_word; At_end] true.
Proof. reflexivity. Qed.

(** Transcripts with punctuation, a final newline, a long s, a word
    character next to the word, a ligature. *)
Example classify_examples :
  map (classify excerpt_db)
    [str "Stop."; str "please stop"; str "STOP"; [8230] ++ str "stop" ++ [8230; 10];
     [383] ++ str "top"; str "  start!!"; str "_stop"; str "stops"; str "st op";
     [64262] ++ str "op"; str "stop" ++ [233]; []]
  = [Stop; Other; Stop; Stop; Stop; Start; Other; Other; Other; Other; Other; Other].
Proof. vm_compute. reflexivity. Qed.

Section Wake_patterns.
Variable db : unicode_db.
Hypothesis laws : unicode_laws db.

(** What [^\W*w\W*$] with IGNORECASE accepts, in the words of the
    specification. *)
Lemma wake_pattern_exact w (t : pystr) :
  wake_letters w ->
  (re_match db
     (Pattern (At_beginning :: Max_repeat Not_word
               :: literals w ++ [Max_repeat Not_word; At_end]) true) t = true
   <-> exact_word db w t).
Proof.
  intros Hw. rewrite wake_pattern_spec. unfold exact_word, strip_nonword.
  rewrite (casefold_wake_word db w Hw). split.
  - intros (pre & cs & post & -> & Hpre & Hm & Hpost).
    rewrite (strip_sandwich_all _ pre cs post Hpre Hpost).
    + now apply matches_word_casefold.
    + exact (matches_word_all_word db laws w cs Hw Hm).
  - intros H.
    destruct (strip_both_split (not_word db) t)
      as (pre & post & Heq & Hpre & Hpost).
    exists pre, (rstrip (not_word db) (lstrip (not_word db) t)), post.
    repeat split; try assumption. now apply matches_word_casefold.
Qed.

Lemma stop_pattern_exact (t : pystr) :
  re_match db stop_pattern t = true <-> exact_word db "stop" t.
Proof. apply (wake_pattern_exact "stop"). simpl. unfold wake_letter. simpl. tauto. Qed.

Lemma start_pattern_exact (t : pystr) :
  re_match db start_pattern t = true <-> exact_word db "start" t.
Proof. apply (wake_pattern_exact "start"). simpl. unfold wake_letter. simpl. tauto. Qed.

Lemma exact_word_stop_not_start (t : pystr) :
  exact_word db "stop" t -> exact_word db "start" t -> False.
Proof. unfold exact_word. intros -> H. discriminate H. Qed.

Lemma patterns_exclusive (t : pystr) :
  re_match db stop_pattern t && re_match db start_pattern t = false.
Proof.
  destruct (re_match db stop_pattern t) eqn:E1; [|reflexivity].
  destruct (re_match db start_pattern t) eqn:E2; [|reflexivity].
  exfalso. apply (exact_word_stop_not_start t).
  - now apply stop_pattern_exact.
  - now apply start_pattern_exact.
Qed.

Lemma exact_wordb_stop (t : pystr) :
  exact_wordb db "stop" t = re_match db stop_pattern t.
Proof.
  unfold exact_wordb. destruct (re_match db stop_pattern t) eqn:E.
  - apply bool_decide_eq_true. now apply stop_pattern_exact.
  - apply bool_decide_eq_false. intros H. apply stop_pattern_exact in H. congruence.
Qed.

Lemma exact_wordb_start (t : pystr) :
  exact_wordb db "start" t = re_match db start_pattern t.
Proof.
  unfold exact_wordb. destruct (re_match db start_pattern t) eqn:E.
  - apply bool_decide_eq_true. now apply start_pattern_exact.
  - apply bool_decide_eq_false. intros H. apply start_pattern_exact in H. congruence.
Qed.
End Wake_patterns.

Lemma excerpt_laws : unicode_laws excerpt_db.
Proof.
  split; simpl; try reflexivity.
  - intros c Hc. unfold latin1_upper. by_cases; lia.
  - intros c Hc. unfold latin1_upper. by_cases; lia.
  - intros c Hc. unfold latin1_upper. by_cases; lia.
Qed.

(** ** Running the three functions *)

Lemma filter_call_snoc (tr : list event) e :
  List.filter is_call (tr ++ [e]) =
  List.filter is_call tr ++ (if is_call e then [e] else []).
Proof. rewrite List.filter_app. simpl. now destruct (is_call e). Qed.

Ltac run_monad :=
  cbv beta iota zeta delta
    [bind ret raise external emit logging_info logging_error write_bytes
     read_bytes remove try_except try_finally requests_post fst snd];
  cbn [files trace].

Ltac calls_done :=
  unfold calls; cbn [files trace fst snd];
  rewrite ?filter_call_snoc; cbn [is_call]; rewrite ?app_nil_r; reflexivity.

Lemma raise_for_status_cases url r w :
  (raise_for_status url r w = (Ok tt, w) /\ ~ (400 <= status_code r < 600))
  \/ (exists e, raise_for_status url r w = (Raise e, w) /\ exn_class e = HTTPError
                /\ 400 <= status_code r < 600).
Proof.
  unfold raise_for_status.
  destruct ((400 <=? status_code r) && (status_code r <? 500)) eqn:E1.
  - apply andb_true_iff in E1 as [H1 H2].
    apply N.leb_le in H1. apply N.ltb_lt in H2.
    right. eexists. split; [reflexivity|]. split; [reflexivity|lia].
  - destruct ((500 <=? status_code r) && (status_code r <? 600)) eqn:E2.
    + apply andb_true_iff in E2 as [H1 H2].
      apply N.leb_le in H1. apply N.ltb_lt in H2.
      right. eexists. split; [reflexivity|]. split; [reflexivity|lia].
    + left. split; [reflexivity|].
      apply andb_false_iff in E1, E2.
      rewrite N.leb_gt, N.ltb_ge in E1, E2. lia.
Qed.

(** [process_voice_input] calls neither the Speaker nor the ChatClient. *)
Lemma process_voice_input_calls g env w :
  calls (snd (process_voice_input g env w)) = calls w.
Proof.
  unfold process_voice_input. destruct env as [op adj lis ans].
  cbn [mic_open mic_adjust mic_listen stt_answer].
  destruct op as [[]|e]; [|reflexivity].
  destruct adj as [[]|e]; [|reflexivity].
  destruct lis as [audio|e]; run_monad; [|calls_done].
  rewrite lookup_insert_eq.
  destruct ans as [r|e]; run_monad.
  - match goal with |- context [raise_for_status ?u ?r ?w] =>
      destruct (raise_for_status_cases u r w) as [[-> _]|[e [-> _]]] end;
      run_monad; rewrite lookup_insert_eq; calls_done.
  - rewrite lookup_insert_eq. calls_done.
Qed.

Lemma quiet_ret {A} (a : A) : quiet (ret a).
Proof. intros w. reflexivity. Qed.

Lemma quiet_raise {A} e : quiet (@raise A e).
Proof. intros w. reflexivity. Qed.

Lemma quiet_external {A} (o : result A) : quiet (external o).
Proof. intros w. reflexivity. Qed.

Lemma quiet_emit e : is_call e = false -> quiet (emit e).
Proof. intros H w. unfold calls. simpl. rewrite filter_call_snoc, H. apply app_nil_r. Qed.

Lemma quiet_bind {A B} (m : M A) (k : A -> M B) :
  quiet m -> (forall a, quiet (k a)) -> quiet (bind m k).
Proof.
  intros Hm Hk w. unfold bind. specialize (Hm w).
  destruct (m w) as [[a|e] w']; simpl in *.
  - now rewrite Hk.
  - exact Hm.
Qed.

Lemma quiet_write_bytes path data : quiet (write_bytes path data).
Proof. intros w. reflexivity. Qed.

Lemma quiet_remove path : quiet (remove path).
Proof. intros w. unfold remove. now destruct (files w !! path). Qed.

Lemma quiet_raise_for_status url r : quiet (raise_for_status url r).
Proof.
  intros w. destruct (raise_for_status_cases url r w) as [[-> _]|[e [-> _]]]; reflexivity.
Qed.

Lemma quiet_response_json r : quiet (response_json r).
Proof. intros w. unfold response_json. now destruct (body_json r). Qed.

Lemma quiet_getitem_key j key : quiet (getitem_key j key).
Proof.
  intros w. unfold getitem_key. destruct j; try reflexivity.
  now destruct (assoc (str key) l).
Qed.

Lemma quiet_getitem_0 j : quiet (getitem_0 j).
Proof. intros w. unfold getitem_0. destruct j as [| | | [|]|[|]|]; reflexivity. Qed.

Lemma quiet_jstrip j : quiet (jstrip j).
Proof. intros w. destruct j; reflexivity. Qed.

Lemma quiet_requests_post url hs body o : quiet (requests_post url hs body o).
Proof.
  unfold requests_post. apply quiet_bind; [now apply quiet_emit|].
  intros _. apply quiet_external.
Qed.

Lemma quiet_process_voice_input g env : quiet (process_voice_input g env).
Proof. intros w. apply process_voice_input_calls. Qed.

Create HintDb quiet.

#[local] Hint Resolve quiet_ret quiet_raise quiet_external quiet_write_bytes
  quiet_remove quiet_raise_for_status quiet_response_json quiet_getitem_key
  quiet_getitem_0 quiet_jstrip quiet_requests_post : quiet.

Ltac quiet_steps :=
  repeat first
    [ apply quiet_bind; [|intros ?]
    | solve [auto with quiet]
    | apply quiet_emit; reflexivity
    | unfold logging_info, logging_error; apply quiet_emit; reflexivity ].

(** A recorded call followed by quiet work adds that call and no other. *)
Lemma call_then_quiet {A} e (k : unit -> M A) w :
  is_call e = true -> quiet (k tt) ->
  calls (snd (bind (emit e) k w)) = calls w ++ [e].
Proof.
  intros He Hk. unfold bind, emit. rewrite Hk. unfold calls. simpl.
  now rewrite filter_call_snoc, He.
Qed.

Lemma text_to_speech_calls g env text w :
  calls (snd (text_to_speech g env text w)) = calls w ++ [Call_text_to_speech text].
Proof.
  unfold text_to_speech. apply call_then_quiet; [reflexivity|].
  apply quiet_bind; [auto with quiet|]. intros r.
  destruct (status_code r =? 200); quiet_steps.
Qed.

Lemma query_llm_calls g env prompt w :
  calls (snd (query_llm g env prompt w)) = calls w ++ [Call_query_llm prompt].
Proof.
  unfold query_llm. apply call_then_quiet; [reflexivity|]. cbv zeta. quiet_steps.
Qed.

(** ** What [text_to_speech] does, case by case *)

Lemma text_to_speech_played g env text w r :
  tts_answer env = Ok r -> status_code r = 200 ->
  tts_decode env = Ok tt -> tts_play env = Ok tt ->
  exists w', text_to_speech g env text w = (Ok tt, w')
             /\ files w' = delete "speech.wav"%string
                             (<["speech.wav"%string := content r]> (files w)).
Proof.
  intros Ha Hs Hd Hp. unfold text_to_speech. rewrite Ha, Hd, Hp.
  run_monad. rewrite Hs, N.eqb_refl. run_monad.
  rewrite lookup_insert_eq. eexists. split; reflexivity.
Qed.

Lemma text_to_speech_refused g env text w r :
  tts_answer env = Ok r -> status_code r <> 200 ->
  exists w', text_to_speech g env text w = (Ok tt, w') /\ files w' = files w.
Proof.
  intros Ha Hs. unfold text_to_speech. rewrite Ha. run_monad.
  destruct (N.eqb_spec (status_code r) 200) as [E|_]; [contradiction|].
  run_monad. eexists. split; reflexivity.
Qed.

Lemma text_to_speech_returns g env text w :
  speaker_returns env -> exists w', text_to_speech g env text w = (Ok tt, w').
Proof.
  intros (r & Ha & H). destruct (N.eq_dec (status_code r) 200) as [E|E].
  - destruct (H E) as [Hd Hp].
    destruct (text_to_speech_played g env text w r Ha E Hd Hp) as (w' & Hw & _). eauto.
  - destruct (text_to_speech_refused g env text w r Ha E) as (w' & Hw & _). eauto.
Qed.

Lemma text_to_speech_transport g env text w e :
  tts_answer env = Raise e ->
  exists w', text_to_speech g env text w = (Raise e, w') /\ files w' = files w.
Proof.
  intros Ha. unfold text_to_speech. rewrite Ha. run_monad.
  eexists. split; reflexivity.
Qed.

(** ** What [query_llm] does when the request fails *)

Lemma query_llm_transport g env prompt w e :
  chat_answer env = Raise e ->
  exists w', query_llm g env prompt w = (Raise e, w').
Proof.
  intros Ha. unfold query_llm. rewrite Ha. run_monad. eexists. reflexivity.
Qed.

Lemma query_llm_http_error g env prompt w r :
  chat_answer env = Ok r -> 400 <= status_code r < 600 ->
  exists e w', query_llm g env prompt w = (Raise e, w') /\ exn_class e = HTTPError.
Proof.
  intros Ha Hs. unfold query_llm. rewrite Ha. run_monad.
  match goal with |- context [raise_for_status ?u ?r ?w] =>
    destruct (raise_for_status_cases u r w) as [[_ Hn]|[e [-> [Hc _]]]] end.
  - contradiction.
  - exists e. eexists. split; [reflexivity|exact Hc].
Qed.

(** ** The loop body *)

Lemma re_match_stop_empty db : re_match db stop_pattern [] = false.
Proof. reflexivity. Qed.

Lemma re_match_start_empty db : re_match db start_pattern [] = false.
Proof. reflexivity. Qed.

Lemma iteration_after_capture db g env st w raw w1 :
  process_voice_input g (capture env) w = (Ok raw, w1) ->
  iteration db g env st w = handle db g env st raw w1.
Proof. intros H. unfold iteration, bind. now rewrite H. Qed.

Lemma capture_calls g env w raw w1 :
  process_voice_input g env w = (Ok raw, w1) -> calls w1 = calls w.
Proof. intros H. pose proof (process_voice_input_calls g env w) as E. now rewrite H in E. Qed.

Lemma bind_then_ret {A B} (m : M A) (b : B) w :
  bind m (fun _ => ret b) w =
  (match fst (m w) with Ok _ => Ok b | Raise e => Raise e end, snd (m w)).
Proof. unfold bind, ret. now destruct (m w) as [[a|e] w']. Qed.

Lemma handle_stop db g env raw :
  re_match db stop_pattern raw = true ->
  handle db g env true raw = (let* _ := text_to_speech g (tts env) stop_ack in ret false).
Proof.
  intros H. destruct raw as [|c raw]; [now rewrite re_match_stop_empty in H|].
  unfold handle. now rewrite H.
Qed.

Lemma handle_start db g env raw :
  re_match db start_pattern raw = true ->
  handle db g env false raw = (let* _ := text_to_speech g (tts env) start_ack in ret true).
Proof.
  intros H. destruct raw as [|c raw]; [now rewrite re_match_start_empty in H|].
  unfold handle. now rewrite H.
Qed.

Lemma handle_regular db g env raw :
  raw <> [] -> re_match db stop_pattern raw = false ->
  handle db g env true raw = chat_turn g env raw true.
Proof.
  intros Hne H. destruct raw as [|c raw]; [contradiction|].
  unfold handle. now rewrite H.
Qed.

Lemma handle_paused_other db g env raw :
  re_match db start_pattern raw = false ->
  handle db g env false raw = ret false.
Proof. intros H. destruct raw as [|c raw]; [reflexivity|]. unfold handle. now rewrite H. Qed.

Lemma handle_empty db g env st : handle db g env st [] = ret st.
Proof. reflexivity. Qed.

Lemma chat_turn_flag g env raw st w st' w' :
  chat_turn g env raw st w = (Ok st', w') -> st' = st.
Proof.
  unfold chat_turn, bind at 1.
  destruct (query_llm g (chat env) raw w) as [[reply|e] w1]; [|discriminate].
  rewrite bind_then_ret.
  destruct (fst (text_to_speech g (tts env) reply w1)); congruence.
Qed.


(** ** The session loop *)






(** A pass through the loop completes when the calls it makes return. *)
Lemma iteration_completes db g env st w raw w1 :
  process_voice_input g (capture env) w = (Ok raw, w1) ->
  speaker_returns (tts env) ->
  (forall w, exists reply w', query_llm g (chat env) raw w = (Ok reply, w')) ->
  exists st' w2, iteration db g env st w = (Ok st', w2).
Proof.
  intros Hcap Hs Hc. rewrite (iteration_after_capture db g env st w raw w1 Hcap).
  assert (Hspeak : forall text (b : bool) w, exists w',
             (let* _ := text_to_speech g (tts env) text in ret b) w = (Ok b, w')).
  { intros text b w'. rewrite bind_then_ret.
    destruct (text_to_speech_returns g (tts env) text w' Hs) as [w'' ->]. simpl. eauto. }
  destruct raw as [|c raw]; [simpl; unfold ret; eauto|].
  unfold handle.
  destruct (st && re_match db stop_pattern (c :: raw)); [eauto|].
  destruct (negb st && re_match db start_pattern (c :: raw)); [eauto|].
  destruct st; [|unfold ret; eauto].
  unfold bind at 1. destruct (Hc w1) as (reply & w' & ->). eauto.
Qed.

(** C2. The classification is Stop exactly when the transcript, trimmed of
    surrounding non-word characters and compared without regard to case,
    is the word "stop", and Start exactly when it so reduces to "start";
    "Stop." and "STOP" are Stop, "please stop" is Other. *)
Theorem wake_word_classification db (t : pystr) :
  unicode_laws db ->
  (classify db t = Stop <-> exact_word db "stop" t)
  /\ (classify db t = Start <-> exact_word db "start" t)
  /\ classify db (str "Stop.") = Stop
  /\ classify db (str "please stop") = Other
  /\ classify db (str "STOP") = Stop.
Proof.
  intros laws. repeat split; try reflexivity.
  - unfold classify. intros H. apply (stop_pattern_exact db laws).
    destruct (re_match db stop_pattern t); [reflexivity|].
    destruct (re_match db start_pattern t); discriminate.
  - intros H. apply (stop_pattern_exact db laws) in H. unfold classify. now rewrite H.
  - unfold classify. intros H. apply (start_pattern_exact db laws).
    destruct (re_match db stop_pattern t); [discriminate|].
    destruct (re_match db start_pattern t); [reflexivity|discriminate].
  - intros H. pose proof (patterns_exclusive db laws t) as E.
    apply (start_pattern_exact db laws) in H. unfold classify.
    rewrite H in *. rewrite andb_true_r in E. now rewrite E.
Qed.

Lemma wake_word_classification_witness :
  unicode_laws excerpt_db
  /\ (classify excerpt_db (str " stop!") = Stop <-> exact_word excerpt_db "stop" (str " stop!")).
Proof.
  split; [exact excerpt_laws|].
  exact (proj1 (wake_word_classification excerpt_db (str " stop!") excerpt_laws)).
Defined.

(** C3, with the acknowledgement spelled as in the script. Listening, with
    a transcript matching the stop pattern:
    the Speaker is invoked exactly once, with the stop acknowledgement
    (typographic quotes around start), the ChatClient is not invoked, and the state after the pass is Paused; the pass
    completes when the Speaker call returns. *)
Theorem stop_while_listening db g env w raw w1 :
  process_voice_input g (capture env) w = (Ok raw, w1) ->
  re_match db stop_pattern raw = true ->
  exists r w2, iteration db g env true w = (r, w2)
    /\ calls w2 = calls w ++ [Call_text_to_speech stop_ack]
    /\ (forall st', r = Ok st' -> st' = false)
    /\ (speaker_returns (tts env) -> r = Ok false).
Proof.
  intros Hcap Hm. rewrite (iteration_after_capture db g env true w raw w1 Hcap).
  rewrite (handle_stop db g env raw Hm), bind_then_ret.
  eexists _, _. split; [reflexivity|]. split; [|split].
  - rewrite text_to_speech_calls. now rewrite (capture_calls _ _ _ _ _ Hcap).
  - destruct (fst (text_to_speech g (tts env) stop_ack w1)); congruence.
  - intros Hs. destruct (text_to_speech_returns g (tts env) stop_ack w1 Hs) as [w' ->].
    reflexivity.
Qed.

Lemma stop_while_listening_witness :
  exists r w2, iteration excerpt_db demo_globals (turn "Stop") true empty_world = (r, w2)
    /\ calls w2 = calls empty_world ++ [Call_text_to_speech stop_ack]
    /\ (forall st', r = Ok st' -> st' = false)
    /\ (speaker_returns (tts (turn "Stop")) -> r = Ok false).
Proof.
  refine (stop_while_listening excerpt_db demo_globals (turn "Stop") empty_world
            (str "Stop") _ _ _); vm_compute; reflexivity.
Defined.

(** The text of the claim, with ASCII apostrophes, is not what the Speaker
    receives on "Stop". *)
Lemma stop_ack_text_counterexample :
  calls (snd (iteration excerpt_db demo_globals (turn "Stop") true empty_world))
  <> [Call_text_to_speech (str "Voice chat stopped. Say 'start' to resume.")].
Proof. vm_compute. intros H. discriminate H. Qed.

(** C4. Paused, with a transcript that is not the word "start": the pass
    returns with the state still Paused and the world as the capture left
    it, so nothing was spoken and nothing was asked; two such passes in a
    row on "stop" both do nothing. *)
Theorem paused_discards db g env w raw w1 :
  unicode_laws db ->
  process_voice_input g (capture env) w = (Ok raw, w1) ->
  ~ exact_word db "start" raw ->
  iteration db g env false w = (Ok false, w1)
  /\ calls w1 = calls w
  /\ (forall env' raw' w1',
        process_voice_input g (capture env') w1 = (Ok raw', w1') ->
        exact_word db "stop" raw -> exact_word db "stop" raw' ->
        main_loop db g [env; env'] false w = (Ok false, w1') /\ calls w1' = calls w).
Proof.
  intros laws Hcap Hns.
  assert (Hother : forall t, ~ exact_word db "start" t ->
                             re_match db start_pattern t = false).
  { intros t Ht. destruct (re_match db start_pattern t) eqn:E; [|reflexivity].
    exfalso. apply Ht. now apply (start_pattern_exact db laws). }
  assert (Hone : forall e t u u', process_voice_input g (capture e) u = (Ok t, u') ->
                   ~ exact_word db "start" t -> iteration db g e false u = (Ok false, u')).
  { intros e t u u' Hc Ht. rewrite (iteration_after_capture db g e false u t u' Hc).
    now rewrite (handle_paused_other db g e t (Hother t Ht)). }
  split; [now apply (Hone env raw)|]. split; [exact (capture_calls _ _ _ _ _ Hcap)|].
  intros env' raw' w1' Hcap' Hstop Hstop'. split.
  - simpl. unfold bind at 1. rewrite (Hone env raw w w1 Hcap Hns).
    unfold bind at 1. rewrite (Hone env' raw' w1 w1' Hcap').
    + reflexivity.
    + intros H. exact (exact_word_stop_not_start db raw' Hstop' H).
  - rewrite (capture_calls _ _ _ _ _ Hcap'). exact (capture_calls _ _ _ _ _ Hcap).
Qed.

Lemma paused_discards_witness :
  unicode_laws excerpt_db
  /\ iteration excerpt_db demo_globals (turn "stop") false empty_world
     = (Ok false, snd (process_voice_input demo_globals (heard "stop") empty_world))
  /\ fst (main_loop excerpt_db demo_globals [turn "stop"; turn "Stop!"] false empty_world)
     = Ok false
  /\ calls (snd (main_loop excerpt_db demo_globals [turn "stop"; turn "Stop!"] false
                  empty_world)) = [].
Proof.
  split; [exact excerpt_laws|].
  assert (Hnot : ~ exact_word excerpt_db "start" (str "stop")).
  { vm_compute. intros H. discriminate H. }
  destruct (paused_discards excerpt_db demo_globals (turn "stop") empty_world
              (str "stop")
              (snd (process_voice_input demo_globals (heard "stop") empty_world))
              excerpt_laws eq_refl Hnot) as (H1 & _ & H3).
  split; [exact H1|].
  destruct (H3 (turn "Stop!") (str "Stop!")
              (snd (process_voice_input demo_globals (heard "Stop!")
                      (snd (process_voice_input demo_globals (heard "stop") empty_world))))
              eq_refl eq_refl eq_refl) as [H4 H5].
  rewrite H4. split; [reflexivity|exact H5].
Defined.

(** C5. A pass in which the capture yields the empty transcript returns
    with the flag as it was and the world as the capture left it: neither
    the ChatClient nor the Speaker is invoked, whatever the state. *)
Theorem empty_transcript_is_skipped db g env st w w1 :
  process_voice_input g (capture env) w = (Ok [], w1) ->
  iteration db g env st w = (Ok st, w1) /\ calls w1 = calls w.
Proof.
  intros Hcap. split.
  - now rewrite (iteration_after_capture db g env st w [] w1 Hcap).
  - exact (capture_calls _ _ _ _ _ Hcap).
Qed.

Lemma empty_transcript_is_skipped_witness :
  iteration excerpt_db demo_globals (IterationEnv silence (chat_up "Hi.") speaker_up)
    false empty_world
  = (Ok false, snd (process_voice_input demo_globals silence empty_world))
  /\ calls (snd (process_voice_input demo_globals silence empty_world)) = calls empty_world.
Proof.
  refine (empty_transcript_is_skipped excerpt_db demo_globals
            (IterationEnv silence (chat_up "Hi.") speaker_up) false empty_world _ _).
  vm_compute. reflexivity.
Defined.

Lemma exact_word_nonempty db w (t : pystr) :
  exact_word db (String w "") t -> t <> [].
Proof. intros H ->. discriminate H. Qed.

Lemma chat_turn_calls g env raw st w :
  calls (snd (chat_turn g env raw st w)) =
  calls w ++ Call_query_llm raw
    :: match fst (query_llm g (chat env) raw w) with
       | Ok reply => [Call_text_to_speech reply]
       | Raise _ => []
       end.
Proof.
  unfold chat_turn, bind at 1. pose proof (query_llm_calls g (chat env) raw w) as Hq.
  destruct (query_llm g (chat env) raw w) as [[reply|e] wq]; simpl in *.
  - rewrite bind_then_ret. simpl. rewrite text_to_speech_calls, Hq.
    now rewrite <- app_assoc.
  - exact Hq.
Qed.

(** C6. Listening, with the transcript "start" (or any transcript that
    reduces to that word): the pass is an ordinary turn, the transcript
    goes to the ChatClient and the only thing spoken is its reply, so no
    acknowledgement; the state after the pass is Listening. *)
Theorem start_while_listening db g env w raw w1 :
  unicode_laws db ->
  process_voice_input g (capture env) w = (Ok raw, w1) ->
  exact_word db "start" raw ->
  exists r w2, iteration db g env true w = (r, w2)
    /\ (forall st', r = Ok st' -> st' = true)
    /\ calls w2 = calls w ++ Call_query_llm raw
         :: match fst (query_llm g (chat env) raw w1) with
            | Ok reply => [Call_text_to_speech reply]
            | Raise _ => []
            end
    /\ (forall reply, fst (query_llm g (chat env) raw w1) = Ok reply ->
                      speaker_returns (tts env) -> r = Ok true).
Proof.
  intros laws Hcap Hstart.
  assert (Hne : raw <> []) by (intros ->; discriminate Hstart).
  assert (Hns : re_match db stop_pattern raw = false).
  { pose proof (patterns_exclusive db laws raw) as E.
    apply (start_pattern_exact db laws) in Hstart. rewrite Hstart in E.
    now rewrite andb_true_r in E. }
  rewrite (iteration_after_capture db g env true w raw w1 Hcap).
  rewrite (handle_regular db g env raw Hne Hns).
  destruct (chat_turn g env raw true w1) as [r w2] eqn:E.
  exists r, w2. split; [reflexivity|]. split; [|split].
  - intros st' ->. exact (chat_turn_flag g env raw true w1 st' w2 E).
  - pose proof (chat_turn_calls g env raw true w1) as Hc. rewrite E in Hc. simpl in Hc.
    now rewrite Hc, (capture_calls _ _ _ _ _ Hcap).
  - intros reply Hq Hs. revert E. unfold chat_turn, bind at 1.
    destruct (query_llm g (chat env) raw w1) as [[reply'|e] wq]; [|discriminate].
    rewrite bind_then_ret.
    destruct (text_to_speech_returns g (tts env) reply' wq Hs) as [w' ->]. simpl. congruence.
Qed.

Lemma start_while_listening_witness :
  unicode_laws excerpt_db
  /\ exists r w2, iteration excerpt_db demo_globals (turn "start") true empty_world = (r, w2)
       /\ (forall st', r = Ok st' -> st' = true)
       /\ calls w2 = [Call_query_llm (str "start"); Call_text_to_speech (str "Hi Alex.")].
Proof.
  split; [exact excerpt_laws|].
  destruct (start_while_listening excerpt_db demo_globals (turn "start") empty_world
              (str "start") (snd (process_voice_input demo_globals (heard "start") empty_world))
              excerpt_laws eq_refl eq_refl) as (r & w2 & H1 & H2 & H3 & _).
  exists r, w2. split; [exact H1|]. split; [exact H2|exact H3].
Defined.

Lemma query_llm_raise_ends_loop db g env envs w raw w1 e w2 :
  process_voice_input g (capture env) w = (Ok raw, w1) ->
  raw <> [] -> re_match db stop_pattern raw = false ->
  query_llm g (chat env) raw w1 = (Raise e, w2) ->
  main_loop db g (env :: envs) true w = (Raise e, w2).
Proof.
  intros Hcap Hne Hns Hq. simpl. unfold bind at 1.
  rewrite (iteration_after_capture db g env true w raw w1 Hcap).
  rewrite (handle_regular db g env raw Hne Hns).
  unfold chat_turn, bind at 1. now rewrite Hq.
Qed.

(** C7, for the statuses that [raise_for_status] rejects. [query_llm] does
    not contain a transport failure or a 4xx
    or 5xx status: the exception reaches the caller, and in the loop, which
    has no handler either, it ends the session. *)
Theorem chat_errors_end_the_loop db g env envs w raw w1 :
  process_voice_input g (capture env) w = (Ok raw, w1) ->
  raw <> [] -> re_match db stop_pattern raw = false ->
  (forall e, chat_answer (chat env) = Raise e ->
     exists w2, query_llm g (chat env) raw w1 = (Raise e, w2)
                /\ main_loop db g (env :: envs) true w = (Raise e, w2))
  /\ (forall r, chat_answer (chat env) = Ok r -> 400 <= status_code r < 600 ->
        exists e w2, exn_class e = HTTPError
                     /\ query_llm g (chat env) raw w1 = (Raise e, w2)
                     /\ main_loop db g (env :: envs) true w = (Raise e, w2)).
Proof.
  intros Hcap Hne Hns. split.
  - intros e Ha. destruct (query_llm_transport g (chat env) raw w1 e Ha) as [w2 Hq].
    exists w2. split; [exact Hq|].
    exact (query_llm_raise_ends_loop db g env envs w raw w1 e w2 Hcap Hne Hns Hq).
  - intros r Ha Hs.
    destruct (query_llm_http_error g (chat env) raw w1 r Ha Hs) as (e & w2 & Hq & Hc).
    exists e, w2. split; [exact Hc|]. split; [exact Hq|].
    exact (query_llm_raise_ends_loop db g env envs w raw w1 e w2 Hcap Hne Hns Hq).
Qed.

Lemma chat_errors_end_the_loop_witness :
  exists w2, query_llm demo_globals (chat chat_down) (str "Hello, how are you?")
               (snd (process_voice_input demo_globals (capture chat_down) empty_world))
             = (Raise connection_refused, w2)
    /\ main_loop excerpt_db demo_globals [chat_down; turn "never heard"] true empty_world
       = (Raise connection_refused, w2).
Proof.
  refine (proj1 (chat_errors_end_the_loop excerpt_db demo_globals chat_down
                   [turn "never heard"] empty_world (str "Hello, how are you?") _ _ _ _)
            connection_refused _).
  - vm_compute. reflexivity.
  - discriminate.
  - vm_compute. reflexivity.
  - reflexivity.
Defined.

(** A status outside 2xx that is not an error status, with a well-formed
    body, makes [query_llm] return; and a transport failure of the Speaker
    ends the session as well, on a pass that asks nothing. *)
Lemma chat_error_counterexample :
  (let r := Response 300 (str "Multiple Choices") [] [] (Some (completion "Hi.")) in
   ~ (200 <= status_code r < 300)
   /\ fst (query_llm demo_globals (ChatEnv (Ok r)) (str "hello") empty_world)
      = Ok (str "Hi."))
  /\ fst (main_loop excerpt_db demo_globals
            [IterationEnv (heard "Stop") (chat_up "Hi.")
               (TtsEnv (Raise connection_refused) (Ok tt) (Ok tt));
             turn "never heard"] true empty_world)
     = Raise connection_refused.
Proof.
  split; [split|].
  - simpl. lia.
  - vm_compute. reflexivity.
  - vm_compute. reflexivity.
Qed.

(** ** The temporary files *)

(** On the path where everything succeeds the file is gone afterwards. *)
Lemma speech_file_removed_after_playback g env text w r :
  tts_answer env = Ok r -> status_code r = 200 ->
  tts_decode env = Ok tt -> tts_play env = Ok tt ->
  exists w', text_to_speech g env text w = (Ok tt, w')
             /\ files w' !! "speech.wav"%string = None.
Proof.
  intros Ha Hs Hd Hp.
  destruct (text_to_speech_played g env text w r Ha Hs Hd Hp) as (w' & Hw & Hf).
  exists w'. split; [exact Hw|]. rewrite Hf. apply lookup_delete_eq.
Qed.

(** C8, what the code does instead. After a 200 answer, when decoding
    or playing the audio raises, [text_to_speech] raises too and leaves
    [speech.wav], holding the answer's body, in the working directory. *)
Theorem speech_file_left_when_playback_fails g env text w r e :
  tts_answer env = Ok r -> status_code r = 200 ->
  tts_decode env = Raise e \/ (tts_decode env = Ok tt /\ tts_play env = Raise e) ->
  exists w', text_to_speech g env text w = (Raise e, w')
             /\ files w' !! "speech.wav"%string = Some (content r).
Proof.
  intros Ha Hs Hfail. unfold text_to_speech. rewrite Ha. run_monad.
  rewrite Hs, N.eqb_refl. run_monad.
  destruct Hfail as [Hd|[Hd Hp]].
  - rewrite Hd. eexists. split; [reflexivity|]. cbn [files]. apply lookup_insert_eq.
  - rewrite Hd, Hp. eexists. split; [reflexivity|]. cbn [files]. apply lookup_insert_eq.
Qed.

Lemma speech_file_left_when_playback_fails_witness :
  exists w', text_to_speech demo_globals speaker_mute (str "Hi Alex.") empty_world
             = (Raise no_audio_device, w')
    /\ files w' !! "speech.wav"%string = Some [Byte.x52; Byte.x49; Byte.x46; Byte.x46].
Proof.
  refine (speech_file_left_when_playback_fails demo_globals speaker_mute (str "Hi Alex.")
            empty_world wav_answer no_audio_device _ _ _).
  - reflexivity.
  - reflexivity.
  - right. split; reflexivity.
Defined.

(** ** The capture *)

(** C9, for the call the handler guards. Once the microphone is open and
    calibrated, a failure
    of the listen call, be it a timeout with no speech onset or a device
    error while recording, does not reach the caller: the error is logged
    and the empty string returned, with no file written. *)
Theorem listen_failure_is_contained g env w e :
  mic_open env = Ok tt -> mic_adjust env = Ok tt -> mic_listen env = Raise e ->
  process_voice_input g env w =
    (Ok [], World (files w)
              (trace w ++ [Log INFO waiting_for_voice;
                           Log ERROR (str "STT capture error: " ++ exn_str e)])).
Proof.
  intros Ho Had Hl. unfold process_voice_input. rewrite Ho, Had, Hl. run_monad.
  now rewrite <- app_assoc.
Qed.

Lemma listen_failure_is_contained_witness :
  process_voice_input demo_globals silence empty_world =
    (Ok [], World ∅
              [Log INFO waiting_for_voice;
               Log ERROR (str "STT capture error: "
                          ++ str "listening timed out while waiting for phrase to start")]).
Proof.
  exact (listen_failure_is_contained demo_globals silence empty_world _
           eq_refl eq_refl eq_refl).
Defined.

(** A device error met while opening the microphone reaches the caller,
    and nothing is logged. *)
Lemma capture_device_error_counterexample :
  process_voice_input demo_globals
    (CaptureEnv (Raise no_microphone) (Ok tt) (Ok []) (Ok (ok_response "" None)))
    empty_world
  = (Raise no_microphone, empty_world).
Proof. reflexivity. Qed.

(** Past the listen call nothing escapes [process_voice_input], and
    [prompt.wav] is removed whether the upload succeeded or not. *)
Lemma process_voice_input_after_listen g env w audio :
  mic_open env = Ok tt -> mic_adjust env = Ok tt -> mic_listen env = Ok audio ->
  exists t w', process_voice_input g env w = (Ok t, w')
               /\ files w' = delete "prompt.wav"%string
                               (<["prompt.wav"%string := audio]> (files w)).
Proof.
  intros Ho Had Hl. unfold process_voice_input. rewrite Ho, Had, Hl. run_monad.
  rewrite lookup_insert_eq.
  destruct (stt_answer env) as [r|e]; run_monad.
  - match goal with |- context [raise_for_status ?u ?r ?w] =>
      destruct (raise_for_status_cases u r w) as [[-> _]|[e [-> _]]] end;
      run_monad; rewrite lookup_insert_eq; eexists _, _; split; reflexivity.
  - rewrite lookup_insert_eq. eexists _, _. split; reflexivity.
Qed.

(** A failed upload (transport failure, or a 4xx or 5xx status) is logged
    and gives the empty transcript. *)
Lemma transcription_failure_yields_empty g env w audio :
  mic_open env = Ok tt -> mic_adjust env = Ok tt -> mic_listen env = Ok audio ->
  (exists e, stt_answer env = Raise e)
  \/ (exists r, stt_answer env = Ok r /\ 400 <= status_code r < 600) ->
  exists w', process_voice_input g env w = (Ok [], w').
Proof.
  intros Ho Had Hl Hfail. unfold process_voice_input. rewrite Ho, Had, Hl. run_monad.
  rewrite lookup_insert_eq.
  destruct Hfail as [[e ->]|(r & -> & Hs)]; run_monad.
  - rewrite lookup_insert_eq. eexists. reflexivity.
  - match goal with |- context [raise_for_status ?u ?r ?w] =>
      destruct (raise_for_status_cases u r w) as [[_ Hn]|[e [-> _]]] end;
      [contradiction|].
    run_monad. rewrite lookup_insert_eq. eexists. reflexivity.
Qed.

(** ** The two patterns together *)

Lemma handle_speaks_once db g env st raw w :
  exists new, calls (snd (handle db g env st raw w)) = calls w ++ new
              /\ (length (spoken new) <= 1)%nat.
Proof.
  assert (Hack : forall text (b : bool),
             exists new, calls (snd ((let* _ := text_to_speech g (tts env) text in ret b) w))
                         = calls w ++ new /\ (length (spoken new) <= 1)%nat).
  { intros text b. rewrite bind_then_ret. simpl. rewrite text_to_speech_calls.
    eexists. split; [reflexivity|]. simpl. lia. }
  destruct raw as [|c raw].
  - exists []. split; [now rewrite app_nil_r|simpl; lia].
  - unfold handle.
    destruct (st && re_match db stop_pattern (c :: raw)); [apply Hack|].
    destruct (negb st && re_match db start_pattern (c :: raw)); [apply Hack|].
    destruct st.
    + fold (chat_turn g env (c :: raw) true). rewrite chat_turn_calls.
      eexists. split; [reflexivity|].
      destruct (fst (query_llm g (chat env) (c :: raw) w)); simpl; lia.
    + exists []. split; [now rewrite app_nil_r|simpl; lia].
Qed.

Lemma iteration_speaks_once db g env st w :
  exists new, calls (snd (iteration db g env st w)) = calls w ++ new
              /\ (length (spoken new) <= 1)%nat.
Proof.
  unfold iteration, bind.
  pose proof (process_voice_input_calls g (capture env) w) as Hc.
  destruct (process_voice_input g (capture env) w) as [[raw|e] w1]; simpl in Hc.
  - destruct (handle_speaks_once db g env st raw w1) as (new & H1 & H2).
    exists new. now rewrite H1, Hc.
  - exists []. simpl. split; [now rewrite app_nil_r|lia].
Qed.

(** C10. No transcript matches both patterns, so the classification does
    not depend on the order of the two tests: it is Stop exactly when the
    stop pattern matches and Start exactly when the start pattern matches;
    and a pass through the loop hands the Speaker at most one text, so at
    most one acknowledgement. *)
Theorem wake_patterns_exclusive db (t : pystr) :
  unicode_laws db ->
  re_match db stop_pattern t && re_match db start_pattern t = false
  /\ (classify db t = Stop <-> re_match db stop_pattern t = true)
  /\ (classify db t = Start <-> re_match db start_pattern t = true)
  /\ (forall g env st w,
        exists new, calls (snd (iteration db g env st w)) = calls w ++ new
                    /\ (length (spoken new) <= 1)%nat).
Proof.
  intros laws. pose proof (patterns_exclusive db laws t) as E.
  split; [exact E|]. unfold classify.
  destruct (re_match db stop_pattern t), (re_match db start_pattern t);
    try discriminate E; (split; [|split]);
    try (split; congruence); intros; apply iteration_speaks_once.
Qed.

Lemma wake_patterns_exclusive_witness :
  unicode_laws excerpt_db
  /\ re_match excerpt_db stop_pattern (str "start") && re_match excerpt_db start_pattern (str "start")
     = false.
Proof.
  split; [exact excerpt_laws|].
  exact (proj1 (wake_patterns_exclusive excerpt_db (str "start") excerpt_laws)).
Defined.

(** * Further properties of the script *)

(** ** [str.strip] *)

Lemma lstrip_idempotent p (s : pystr) : lstrip p (lstrip p s) = lstrip p s.
Proof.
  destruct (lstrip p s) as [|c r] eqn:E; [reflexivity|].
  apply lstrip_keep. exact (lstrip_head p s c r E).
Qed.

Lemma rstrip_idempotent p (s : pystr) : rstrip p (rstrip p s) = rstrip p s.
Proof. unfold rstrip. now rewrite rev_involutive, lstrip_idempotent. Qed.

Lemma lstrip_rstrip_fixed p (s : pystr) :
  lstrip p s = s -> lstrip p (rstrip p s) = rstrip p s.
Proof.
  intros Hs. destruct (rstrip p s) as [|c r] eqn:E; [reflexivity|].
  apply lstrip_keep. destruct (rstrip_split p s) as [post [Heq _]].
  rewrite E in Heq. simpl in Heq. rewrite Heq in Hs.
  exact (lstrip_head p _ c (r ++ post) Hs).
Qed.

Lemma strip_idempotent (s : pystr) : strip (strip s) = strip s.
Proof.
  unfold strip.
  rewrite (lstrip_rstrip_fixed isspace (lstrip isspace s)) by apply lstrip_idempotent.
  apply rstrip_idempotent.
Qed.

Lemma lstrip_all p (s : pystr) : forallb p s = true -> lstrip p s = [].
Proof.
  induction s as [|c s IH]; simpl; [reflexivity|].
  intros H. apply andb_true_iff in H as [-> Hs]. now apply IH.
Qed.

Lemma strip_blank (s : pystr) : forallb isspace s = true -> strip s = [].
Proof. intros H. unfold strip. now rewrite (lstrip_all isspace s H). Qed.

(** ** [process_voice_input], every path *)

Lemma process_voice_input_unheard g env w e :
  mic_open env = Ok tt -> mic_adjust env = Ok tt -> mic_listen env = Raise e ->
  process_voice_input g env w =
    (Ok [], World (files w)
              (trace w ++ [Log INFO waiting_for_voice;
                           Log ERROR (str "STT capture error: " ++ exn_str e)])).
Proof.
  intros Ho Had Hl. unfold process_voice_input. rewrite Ho, Had, Hl. run_monad.
  now rewrite <- app_assoc.
Qed.

Lemma process_voice_input_early g env w :
  (forall e, mic_open env = Raise e -> process_voice_input g env w = (Raise e, w))
  /\ (forall e, mic_open env = Ok tt -> mic_adjust env = Raise e ->
        process_voice_input g env w = (Raise e, w)).
Proof.
  split; intros e.
  - intros H. unfold process_voice_input. rewrite H. reflexivity.
  - intros H1 H2. unfold process_voice_input. rewrite H1, H2. reflexivity.
Qed.

Lemma process_voice_input_uploaded g env w audio :
  mic_open env = Ok tt -> mic_adjust env = Ok tt -> mic_listen env = Ok audio ->
  let posted := trace w ++ [Log INFO waiting_for_voice; stt_request g audio] in
  let cleaned := delete "prompt.wav"%string (files w) in
  match stt_answer env with
  | Raise e =>
      process_voice_input g env w =
        (Ok [], World cleaned (posted ++ [Log ERROR (str "STT API error: " ++ exn_str e)]))
  | Ok r =>
      (400 <= status_code r < 600 ->
         exists e, exn_class e = HTTPError
           /\ process_voice_input g env w =
                (Ok [], World cleaned
                          (posted ++ [Log ERROR (str "STT API error: " ++ exn_str e)])))
      /\ (~ (400 <= status_code r < 600) ->
            process_voice_input g env w =
              (Ok (strip (body_text r)),
               World cleaned
                 (posted ++ [Log INFO ([128100] ++ str " USER: " ++ strip (body_text r))])))
  end.
Proof.
  intros Ho Had Hl. unfold process_voice_input, stt_request.
  rewrite Ho, Had, Hl. run_monad. rewrite lookup_insert_eq.
  destruct (stt_answer env) as [r|e]; run_monad.
  - match goal with |- context [raise_for_status ?u ?r ?w] =>
      destruct (raise_for_status_cases u r w) as [[-> Hn]|[e [-> [Hc Hs]]]] end;
      run_monad; rewrite lookup_insert_eq, delete_insert_eq.
    + split; [intros H; contradiction|].
      intros _. rewrite <- !app_assoc. reflexivity.
    + split; [|intros H; contradiction]. intros _. exists e. split; [exact Hc|].
      rewrite <- !app_assoc. reflexivity.
  - rewrite lookup_insert_eq, delete_insert_eq, <- !app_assoc. reflexivity.
Qed.

Lemma process_voice_input_files g env w :
  files (snd (process_voice_input g env w)) =
    match mic_open env, mic_adjust env, mic_listen env with
    | Ok _, Ok _, Ok _ => delete "prompt.wav"%string (files w)
    | _, _, _ => files w
    end.
Proof.
  destruct (mic_open env) as [[]|e] eqn:Ho.
  2:{ now rewrite (proj1 (process_voice_input_early g env w) e Ho). }
  destruct (mic_adjust env) as [[]|e] eqn:Had.
  2:{ now rewrite (proj2 (process_voice_input_early g env w) e Ho Had). }
  destruct (mic_listen env) as [audio|e] eqn:Hl.
  2:{ now rewrite (process_voice_input_unheard g env w e Ho Had Hl). }
  pose proof (process_voice_input_uploaded g env w audio Ho Had Hl) as H. cbv zeta in H.
  destruct (stt_answer env) as [r|e]; [|now rewrite H].
  destruct H as [H1 H2].
  destruct (N.le_gt_cases 400 (status_code r)) as [Hlo|Hlo];
    [destruct (N.lt_ge_cases (status_code r) 600) as [Hhi|Hhi]|].
  - destruct (H1 (conj Hlo Hhi)) as (e & _ & ->). reflexivity.
  - rewrite H2 by lia. reflexivity.
  - rewrite H2 by lia. reflexivity.
Qed.





(** X3. A transcript returned by [process_voice_input] has no whitespace
    at either end: it is empty, or the body of the endpoint's answer
    stripped, and stripping it again changes nothing. *)
Theorem transcript_is_stripped g env w t w' :
  process_voice_input g env w = (Ok t, w') ->
  strip t = t
  /\ (t = [] \/ exists r, stt_answer env = Ok r /\ t = strip (body_text r)).
Proof.
  intros Hrun.
  assert (Hcase : t = [] \/ exists r, stt_answer env = Ok r /\ t = strip (body_text r)).
  { destruct (mic_open env) as [[]|e] eqn:Ho.
    2:{ rewrite (proj1 (process_voice_input_early g env w) e Ho) in Hrun. discriminate. }
    destruct (mic_adjust env) as [[]|e] eqn:Had.
    2:{ rewrite (proj2 (process_voice_input_early g env w) e Ho Had) in Hrun. discriminate. }
    destruct (mic_listen env) as [audio|e] eqn:Hl.
    2:{ rewrite (process_voice_input_unheard g env w e Ho Had Hl) in Hrun.
        left. congruence. }
    pose proof (process_voice_input_uploaded g env w audio Ho Had Hl) as H. cbv zeta in H.
    destruct (stt_answer env) as [r|e]; [|rewrite H in Hrun; left; congruence].
    destruct H as [H1 H2].
    destruct (N.le_gt_cases 400 (status_code r)) as [Hlo|Hlo];
      [destruct (N.lt_ge_cases (status_code r) 600) as [Hhi|Hhi]|].
    - destruct (H1 (conj Hlo Hhi)) as (e & _ & E). rewrite E in Hrun. left. congruence.
    - rewrite H2 in Hrun by lia. right. exists r. split; congruence.
    - rewrite H2 in Hrun by lia. right. exists r. split; congruence. }
  split; [|exact Hcase].
  destruct Hcase as [->|(r & _ & ->)]; [reflexivity|apply strip_idempotent].
Qed.

Lemma transcript_is_stripped_witness :
  strip (str "Stop.") = str "Stop."
  /\ (str "Stop." = []
      \/ exists r, stt_answer (heard "  Stop. ") = Ok r /\ str "Stop." = strip (body_text r)).
Proof.
  refine (transcript_is_stripped demo_globals (heard "  Stop. ") empty_world (str "Stop.") _ _).
  vm_compute. reflexivity.
Defined.




(** ** [text_to_speech], every path *)

Lemma text_to_speech_answered g env text w r :
  tts_answer env = Ok r ->
  let asked := trace w ++ [Call_text_to_speech text; tts_request g text] in
  (status_code r <> 200 ->
     text_to_speech g env text w =
       (Ok tt, World (files w)
                 (asked ++ [Log ERROR (str "TTS API " ++ decimal (status_code r)
                                       ++ str ": " ++ body_text r)])))
  /\ (status_code r = 200 ->
        let written := <["speech.wav"%string := content r]> (files w) in
        let logged := asked ++ [Log INFO ([128264] ++ str " Playing: " ++ text)] in
        match tts_decode env, tts_play env with
        | Raise e, _ => text_to_speech g env text w = (Raise e, World written logged)
        | Ok _, Raise e => text_to_speech g env text w = (Raise e, World written logged)
        | Ok _, Ok _ =>
            text_to_speech g env text w =
              (Ok tt, World (delete "speech.wav"%string (files w)) (logged ++ [Play]))
        end).
Proof.
  intros Ha. cbv zeta. unfold text_to_speech, tts_request. rewrite Ha. run_monad. split.
  - intros Hs. destruct (N.eqb_spec (status_code r) 200) as [E|_]; [contradiction|].
    run_monad. now rewrite <- !app_assoc.
  - intros Hs. rewrite Hs, N.eqb_refl. run_monad.
    destruct (tts_decode env) as [[]|e]; [|now rewrite <- !app_assoc].
    destruct (tts_play env) as [[]|e]; [|now rewrite <- !app_assoc].
    rewrite lookup_insert_eq, delete_insert_eq. now rewrite <- !app_assoc.
Qed.

(** X5. A synthesis request answered with a status other than 200 is
    logged with its status and body and nothing else happens: no file is
    written, nothing is played, and the call returns normally. *)
Theorem speech_refused_is_logged g env text w r :
  tts_answer env = Ok r -> status_code r <> 200 ->
  text_to_speech g env text w =
    (Ok tt, World (files w)
              (trace w ++ [Call_text_to_speech text; tts_request g text;
                           Log ERROR (str "TTS API " ++ decimal (status_code r)
                                      ++ str ": " ++ body_text r)])).
Proof.
  intros Ha Hs.
  rewrite (proj1 (text_to_speech_answered g env text w r Ha) Hs).
  now rewrite <- app_assoc.
Qed.

Lemma speech_refused_is_logged_witness :
  text_to_speech demo_globals speaker_quota (str "Hi.") cluttered_world =
    (Ok tt, World (files cluttered_world)
              [Call_text_to_speech (str "Hi."); tts_request demo_globals (str "Hi.");
               Log ERROR (str "TTS API 429: rate limit")]).
Proof.
  refine (speech_refused_is_logged demo_globals speaker_quota (str "Hi.") cluttered_world
            _ eq_refl _).
  simpl. lia.
Defined.

Lemma text_to_speech_unanswered g env text w e :
  tts_answer env = Raise e ->
  text_to_speech g env text w =
    (Raise e, World (files w) (trace w ++ [Call_text_to_speech text; tts_request g text])).
Proof.
  intros Ha. unfold text_to_speech, tts_request. rewrite Ha. run_monad.
  now rewrite <- app_assoc.
Qed.

(** X6. When the synthesis request itself fails (no answer), the exception
    leaves [text_to_speech] right after the request: nothing is written,
    logged or played. *)
Theorem speech_transport_failure_propagates g env text w e :
  tts_answer env = Raise e ->
  text_to_speech g env text w =
    (Raise e, World (files w) (trace w ++ [Call_text_to_speech text; tts_request g text])).
Proof.
  intros Ha. unfold text_to_speech, tts_request. rewrite Ha. run_monad.
  now rewrite <- app_assoc.
Qed.

Lemma speech_transport_failure_propagates_witness :
  text_to_speech demo_globals (TtsEnv (Raise connection_refused) (Ok tt) (Ok tt))
    (str "Hi.") empty_world =
    (Raise connection_refused,
     World ∅ [Call_text_to_speech (str "Hi."); tts_request demo_globals (str "Hi.")]).
Proof.
  exact (speech_transport_failure_propagates demo_globals
           (TtsEnv (Raise connection_refused) (Ok tt) (Ok tt)) (str "Hi.") empty_world
           connection_refused eq_refl).
Defined.



(** ** [query_llm] on the answers it gets *)

Lemma query_llm_answered g env prompt w r :
  chat_answer env = Ok r -> ~ (400 <= status_code r < 600) ->
  query_llm g env prompt w =
    (let* j := response_json r in
     let* choices := getitem_key j "choices" in
     let* choice := getitem_0 choices in
     let* message := getitem_key choice "message" in
     let* content := getitem_key message "content" in
     let* reply := jstrip content in
     let* _ := logging_info ([129302] ++ str " LLM: " ++ reply) in
     ret reply)
      (World (files w) (trace w ++ [Call_query_llm prompt; chat_request g prompt])).
Proof.
  intros Ha Hs. unfold query_llm, chat_request, system_prompt. rewrite Ha.
  cbv zeta. unfold bind at 1. unfold emit at 1. cbn [files trace].
  unfold bind at 1. unfold requests_post, bind at 1, emit at 1, external. cbn [files trace].
  unfold bind at 1.
  match goal with |- context [raise_for_status ?u ?r ?w] =>
    destruct (raise_for_status_cases u r w) as [[-> _]|[e [_ [_ Hn]]]] end;
    [|contradiction].
  now rewrite <- app_assoc.
Qed.

(** X8. When the endpoint answers with a completion, [query_llm] returns
    the content of the first choice with the whitespace at its ends
    removed, logs it, and ignores any further choice; no file is touched. *)
Theorem reply_is_first_choice g env prompt w r l rest lc lm s :
  chat_answer env = Ok r -> ~ (400 <= status_code r < 600) ->
  body_json r = Some (JObject l) ->
  assoc (str "choices") l = Some (JArray (JObject lc :: rest)) ->
  assoc (str "message") lc = Some (JObject lm) ->
  assoc (str "content") lm = Some (JString s) ->
  query_llm g env prompt w =
    (Ok (strip s),
     World (files w)
       (trace w ++ [Call_query_llm prompt; chat_request g prompt;
                    Log INFO ([129302] ++ str " LLM: " ++ strip s)])).
Proof.
  intros Ha Hs Hj Hc Hm Hk. rewrite (query_llm_answered g env prompt w r Ha Hs).
  unfold response_json. rewrite Hj. unfold bind at 1, ret at 1.
  unfold getitem_key at 1. rewrite Hc. unfold bind at 1, ret at 1.
  unfold getitem_0. unfold bind at 1, ret at 1.
  unfold getitem_key at 1. rewrite Hm. unfold bind at 1, ret at 1.
  unfold getitem_key at 1. rewrite Hk. unfold bind at 1, ret at 1.
  unfold jstrip. run_monad. now rewrite <- app_assoc.
Qed.

Lemma reply_is_first_choice_witness :
  query_llm demo_globals (ChatEnv (Ok two_choices)) (str "hello") empty_world =
    (Ok (str "Hello Alex!"),
     World ∅ [Call_query_llm (str "hello"); chat_request demo_globals (str "hello");
              Log INFO ([129302] ++ str " LLM: " ++ str "Hello Alex!")]).
Proof.
  refine (reply_is_first_choice demo_globals (ChatEnv (Ok two_choices)) (str "hello")
            empty_world two_choices _ _ _ _ (str " Hello Alex! ")
            eq_refl _ eq_refl eq_refl eq_refl eq_refl).
  simpl. lia.
Defined.

(** X9. An answer that is not an error status but does not have the shape
    of a completion makes [query_llm] raise, with nothing logged after the
    request: [JSONDecodeError] for a body that is not JSON, [KeyError] for
    an object without choices, [IndexError] for an empty list of choices,
    [AttributeError] for a content that is null. *)
Theorem malformed_completion_raises g env prompt w r :
  chat_answer env = Ok r -> ~ (400 <= status_code r < 600) ->
  (body_json r = None -> chat_raises JSONDecodeError g env prompt w)
  /\ (forall l, body_json r = Some (JObject l) -> assoc (str "choices") l = None ->
        chat_raises KeyError g env prompt w)
  /\ (forall l, body_json r = Some (JObject l) ->
        assoc (str "choices") l = Some (JArray []) ->
        chat_raises IndexError g env prompt w)
  /\ (forall l rest lc lm, body_json r = Some (JObject l) ->
        assoc (str "choices") l = Some (JArray (JObject lc :: rest)) ->
        assoc (str "message") lc = Some (JObject lm) ->
        assoc (str "content") lm = Some JNull ->
        chat_raises AttributeError g env prompt w).
Proof.
  intros Ha Hs. unfold chat_raises.
  rewrite (query_llm_answered g env prompt w r Ha Hs). unfold response_json.
  split; [|split; [|split]].
  - intros ->. eexists. split; [|reflexivity]. reflexivity.
  - intros l -> Hc. unfold bind at 1, ret at 1. unfold getitem_key at 1. rewrite Hc.
    eexists. split; [|reflexivity]. reflexivity.
  - intros l -> Hc. unfold bind at 1, ret at 1. unfold getitem_key at 1. rewrite Hc.
    unfold bind at 1, ret at 1. eexists. split; [|reflexivity]. reflexivity.
  - intros l rest lc lm -> Hc Hm Hk. unfold bind at 1, ret at 1.
    unfold getitem_key at 1. rewrite Hc. unfold bind at 1, ret at 1.
    unfold getitem_0. unfold bind at 1, ret at 1.
    unfold getitem_key at 1. rewrite Hm. unfold bind at 1, ret at 1.
    unfold getitem_key at 1. rewrite Hk. unfold bind at 1, ret at 1.
    eexists. split; [|reflexivity]. reflexivity.
Qed.

Lemma malformed_completion_raises_witness :
  chat_raises AttributeError demo_globals (ChatEnv (Ok null_content)) (str "hello")
    empty_world.
Proof.
  refine (proj2 (proj2 (proj2 (malformed_completion_raises demo_globals
            (ChatEnv (Ok null_content)) (str "hello") empty_world null_content
            eq_refl _))) _ _ _ _ eq_refl eq_refl eq_refl eq_refl).
  simpl. lia.
Defined.

(** ** The working directory across the loop *)

Lemma keeps_files_ret {A} (a : A) : keeps_files (ret a).
Proof. intros w. reflexivity. Qed.

Lemma keeps_files_raise {A} e : keeps_files (@raise A e).
Proof. intros w. reflexivity. Qed.

Lemma keeps_files_external {A} (o : result A) : keeps_files (external o).
Proof. intros w. reflexivity. Qed.

Lemma keeps_files_emit e : keeps_files (emit e).
Proof. intros w. reflexivity. Qed.

Lemma keeps_files_bind {A B} (m : M A) (k : A -> M B) :
  keeps_files m -> (forall a, keeps_files (k a)) -> keeps_files (bind m k).
Proof.
  intros Hm Hk w. unfold bind. specialize (Hm w).
  destruct (m w) as [[a|e] w1]; simpl in *; [now rewrite Hk|exact Hm].
Qed.

Lemma keeps_files_raise_for_status url r : keeps_files (raise_for_status url r).
Proof.
  intros w. destruct (raise_for_status_cases url r w) as [[-> _]|[e [-> _]]]; reflexivity.
Qed.

Lemma keeps_files_response_json r : keeps_files (response_json r).
Proof. intros w. unfold response_json. now destruct (body_json r). Qed.

Lemma keeps_files_getitem_key j key : keeps_files (getitem_key j key).
Proof.
  intros w. unfold getitem_key. destruct j; try reflexivity.
  now destruct (assoc (str key) l).
Qed.

Lemma keeps_files_getitem_0 j : keeps_files (getitem_0 j).
Proof. intros w. unfold getitem_0. destruct j as [| | | [|]|[|]|]; reflexivity. Qed.

Lemma keeps_files_jstrip j : keeps_files (jstrip j).
Proof. intros w. destruct j; reflexivity. Qed.

Lemma keeps_files_requests_post url hs body o :
  keeps_files (requests_post url hs body o).
Proof.
  unfold requests_post. apply keeps_files_bind; [apply keeps_files_emit|].
  intros _. apply keeps_files_external.
Qed.

Create HintDb keeps.

#[local] Hint Resolve keeps_files_ret keeps_files_raise keeps_files_external
  keeps_files_emit keeps_files_raise_for_status keeps_files_response_json
  keeps_files_getitem_key keeps_files_getitem_0 keeps_files_jstrip
  keeps_files_requests_post : keeps.

(** [query_llm] touches no file, however it ends. *)
Lemma query_llm_keeps_files g env prompt : keeps_files (query_llm g env prompt).
Proof.
  unfold query_llm. cbv zeta.
  repeat first
    [ apply keeps_files_bind; [|intros ?]
    | solve [auto with keeps]
    | unfold logging_info; apply keeps_files_emit ].
Qed.

Lemma text_to_speech_ok_files g env text w w' :
  text_to_speech g env text w = (Ok tt, w') ->
  files w' = files w \/ files w' = delete "speech.wav"%string (files w).
Proof.
  intros Hrun. destruct (tts_answer env) as [r|e] eqn:Ha.
  2:{ rewrite (text_to_speech_unanswered g env text w e Ha) in Hrun.
      discriminate. }
  destruct (text_to_speech_answered g env text w r Ha) as [H1 H2]. cbv zeta in H2.
  destruct (N.eq_dec (status_code r) 200) as [Hs|Hs].
  - specialize (H2 Hs).
    destruct (tts_decode env) as [[]|e]; [|rewrite H2 in Hrun; discriminate].
    destruct (tts_play env) as [[]|e]; [|rewrite H2 in Hrun; discriminate].
    rewrite H2 in Hrun. injection Hrun as <-. now right.
  - rewrite (H1 Hs) in Hrun. injection Hrun as <-. now left.
Qed.

Lemma process_voice_input_no_temp g env w :
  no_temp_files w -> files (snd (process_voice_input g env w)) = files w.
Proof.
  intros [Hp _]. rewrite process_voice_input_files.
  destruct (mic_open env), (mic_adjust env), (mic_listen env);
    try reflexivity; now apply delete_id.
Qed.

Lemma text_to_speech_no_temp g env text w w' :
  no_temp_files w -> text_to_speech g env text w = (Ok tt, w') -> files w' = files w.
Proof.
  intros [_ Hs] Hrun.
  destruct (text_to_speech_ok_files g env text w w' Hrun) as [->| ->];
    [reflexivity|now apply delete_id].
Qed.

Lemma no_temp_files_eq w w' : files w' = files w -> no_temp_files w -> no_temp_files w'.
Proof. unfold no_temp_files. now intros ->. Qed.

Lemma speak_then_ret_files g env text (b : bool) w st' w' :
  no_temp_files w ->
  (let* _ := text_to_speech g env text in ret b) w = (Ok st', w') ->
  files w' = files w.
Proof.
  intros Hn. rewrite bind_then_ret.
  destruct (text_to_speech g env text w) as [[[]|e] w1] eqn:E; simpl; [|discriminate].
  intros H. injection H as _ <-. exact (text_to_speech_no_temp g env text w w1 Hn E).
Qed.

Lemma ret_files {A} (a : A) w r w' : ret a w = (r, w') -> files w' = files w.
Proof. unfold ret. intros H. now injection H as _ <-. Qed.

Lemma handle_no_temp db g env st raw w st' w' :
  no_temp_files w -> handle db g env st raw w = (Ok st', w') -> files w' = files w.
Proof.
  intros Hn. destruct raw as [|c raw]; [apply ret_files|]. unfold handle.
  destruct (st && re_match db stop_pattern (c :: raw));
    [apply speak_then_ret_files; exact Hn|].
  destruct (negb st && re_match db start_pattern (c :: raw));
    [apply speak_then_ret_files; exact Hn|].
  destruct st; [|apply ret_files].
  unfold bind at 1. pose proof (query_llm_keeps_files g (chat env) (c :: raw) w) as Hq.
  destruct (query_llm g (chat env) (c :: raw) w) as [[reply|e] wq]; [|discriminate].
  simpl in Hq. intros H. rewrite <- Hq.
  apply (speak_then_ret_files g (tts env) reply true wq st' w'); [|exact H].
  exact (no_temp_files_eq w wq Hq Hn).
Qed.

Lemma iteration_no_temp db g env st w st' w' :
  no_temp_files w -> iteration db g env st w = (Ok st', w') -> files w' = files w.
Proof.
  intros Hn. unfold iteration, bind.
  pose proof (process_voice_input_no_temp g (capture env) w Hn) as Hc.
  destruct (process_voice_input g (capture env) w) as [[raw|e] w1]; [|discriminate].
  simpl in Hc. intros H. rewrite <- Hc.
  exact (handle_no_temp db g env st raw w1 st' w' (no_temp_files_eq w w1 Hc Hn) H).
Qed.

(** X10. The loop keeps the working directory clean: started where neither
    [prompt.wav] nor [speech.wav] exists, after any number of completed
    passes the directory holds exactly the files it held before. *)
Theorem working_directory_restored db g envs st w st' w' :
  no_temp_files w ->
  main_loop db g envs st w = (Ok st', w') ->
  files w' = files w.
Proof.
  revert st w. induction envs as [|env envs IH]; intros st w Hn.
  - apply ret_files.
  - simpl. unfold bind at 1.
    destruct (iteration db g env st w) as [[st1|e] w1] eqn:E; [|discriminate].
    pose proof (iteration_no_temp db g env st w st1 w1 Hn E) as H1.
    intros H. rewrite <- H1. apply (IH st1 w1); [|exact H].
    exact (no_temp_files_eq w w1 H1 Hn).
Qed.

Lemma working_directory_restored_witness :
  files (snd (main_loop excerpt_db demo_globals
                [turn "Hello."; turn "Stop"; turn "banana"; turn "start"] true
                (World (<["notes.txt"%string := [Byte.x41]]> ∅) [])))
  = <["notes.txt"%string := [Byte.x41]]> ∅.
Proof.
  refine (working_directory_restored excerpt_db demo_globals
            [turn "Hello."; turn "Stop"; turn "banana"; turn "start"] true
            (World (<["notes.txt"%string := [Byte.x41]]> ∅) []) true _ _ _).
  - split; reflexivity.
  - vm_compute. reflexivity.
Defined.

(** ** More of the loop *)

Lemma speak_then_ret_run g env text (b : bool) w :
  exists r w2, (let* _ := text_to_speech g env text in ret b) w = (r, w2)
    /\ calls w2 = calls w ++ [Call_text_to_speech text]
    /\ (forall st', r = Ok st' -> st' = b)
    /\ (speaker_returns env -> r = Ok b).
Proof.
  rewrite bind_then_ret. eexists _, _. split; [reflexivity|]. split; [|split].
  - apply text_to_speech_calls.
  - destruct (fst (text_to_speech g env text w)); congruence.
  - intros Hs. destruct (text_to_speech_returns g env text w Hs) as [w' ->]. reflexivity.
Qed.

(** X11. Paused, with a transcript matching the start pattern: the Speaker
    is invoked exactly once, with "Voice chat resumed.", the ChatClient is
    not invoked, and the state after the pass is Listening; the pass
    completes when the Speaker call returns. *)
Theorem start_while_paused db g env w raw w1 :
  process_voice_input g (capture env) w = (Ok raw, w1) ->
  re_match db start_pattern raw = true ->
  exists r w2, iteration db g env false w = (r, w2)
    /\ calls w2 = calls w ++ [Call_text_to_speech (str "Voice chat resumed.")]
    /\ (forall st', r = Ok st' -> st' = true)
    /\ (speaker_returns (tts env) -> r = Ok true).
Proof.
  intros Hcap Hm. rewrite (iteration_after_capture db g env false w raw w1 Hcap).
  rewrite (handle_start db g env raw Hm).
  destruct (speak_then_ret_run g (tts env) start_ack true w1) as (r & w2 & E & Hc & H1 & H2).
  exists r, w2. split; [exact E|]. split; [|split; assumption].
  rewrite Hc. now rewrite (capture_calls _ _ _ _ _ Hcap).
Qed.

Lemma start_while_paused_witness :
  exists r w2, iteration excerpt_db demo_globals (turn "Start!") false empty_world = (r, w2)
    /\ calls w2 = calls empty_world ++ [Call_text_to_speech (str "Voice chat resumed.")]
    /\ (forall st', r = Ok st' -> st' = true)
    /\ (speaker_returns (tts (turn "Start!")) -> r = Ok true).
Proof.
  refine (start_while_paused excerpt_db demo_globals (turn "Start!") empty_world
            (str "Start!") _ _ _); vm_compute; reflexivity.
Defined.

(** X12. Listening, with a non-empty transcript that does not match the
    stop pattern: the transcript goes to the ChatClient as it is, and when
    the ChatClient returns a reply and the Speaker call returns, that reply
    and nothing else is spoken and the state stays Listening. *)
Theorem regular_turn db g env w raw w1 reply wq :
  process_voice_input g (capture env) w = (Ok raw, w1) ->
  raw <> [] -> re_match db stop_pattern raw = false ->
  query_llm g (chat env) raw w1 = (Ok reply, wq) ->
  speaker_returns (tts env) ->
  exists w2, iteration db g env true w = (Ok true, w2)
    /\ calls w2 = calls w ++ [Call_query_llm raw; Call_text_to_speech reply].
Proof.
  intros Hcap Hne Hns Hq Hs.
  rewrite (iteration_after_capture db g env true w raw w1 Hcap).
  rewrite (handle_regular db g env raw Hne Hns).
  destruct (text_to_speech_returns g (tts env) reply wq Hs) as [w' Ht].
  assert (E : chat_turn g env raw true w1 = (Ok true, w')).
  { unfold chat_turn, bind at 1. rewrite Hq, bind_then_ret, Ht. reflexivity. }
  pose proof (chat_turn_calls g env raw true w1) as Hc. rewrite E, Hq in Hc. simpl in Hc.
  exists w'. split; [exact E|].
  now rewrite Hc, (capture_calls _ _ _ _ _ Hcap).
Qed.

Lemma regular_turn_witness :
  exists w2, iteration excerpt_db demo_globals (turn "Hello, how are you?") true empty_world
             = (Ok true, w2)
    /\ calls w2 = [Call_query_llm (str "Hello, how are you?");
                   Call_text_to_speech (str "Hi Alex.")].
Proof.
  refine (regular_turn excerpt_db demo_globals (turn "Hello, how are you?") empty_world
            (str "Hello, how are you?") _ (str "Hi Alex.") _ _ _ _ _ _).
  - vm_compute. reflexivity.
  - discriminate.
  - vm_compute. reflexivity.
  - vm_compute. reflexivity.
  - eexists. split; [reflexivity|]. intros _. split; reflexivity.
Defined.

(** X13. While Paused the ChatClient is never invoked: whatever the
    microphone and the endpoints do, a pass that starts Paused makes no
    call at all, or the one Speaker call that acknowledges start. *)
Theorem paused_never_asks db g env w :
  exists new, calls (snd (iteration db g env false w)) = calls w ++ new
    /\ (new = [] \/ new = [Call_text_to_speech start_ack]).
Proof.
  unfold iteration, bind.
  pose proof (process_voice_input_calls g (capture env) w) as Hc.
  destruct (process_voice_input g (capture env) w) as [[raw|e] w1]; simpl in Hc.
  2:{ exists []. simpl. rewrite app_nil_r. auto. }
  destruct (re_match db start_pattern raw) eqn:E.
  - rewrite (handle_start db g env raw E).
    destruct (speak_then_ret_run g (tts env) start_ack true w1) as (r & w2 & -> & H & _).
    exists [Call_text_to_speech start_ack]. simpl. rewrite H, Hc. auto.
  - rewrite (handle_paused_other db g env raw E). exists []. simpl.
    rewrite app_nil_r. auto.
Qed.

(** ** What the script adds to the trace *)

Lemma emits_ret P {A} (a : A) : emits P (ret a).
Proof. intros w. exists []. simpl. now rewrite app_nil_r. Qed.

Lemma emits_raise P {A} e : emits P (@raise A e).
Proof. intros w. exists []. simpl. now rewrite app_nil_r. Qed.

Lemma emits_external P {A} (o : result A) : emits P (external o).
Proof. intros w. exists []. simpl. now rewrite app_nil_r. Qed.

Lemma emits_emit (P : event -> Prop) e : P e -> emits P (emit e).
Proof. intros H w. exists [e]. simpl. split; [reflexivity|]. now constructor. Qed.

Lemma emits_bind P {A B} (m : M A) (k : A -> M B) :
  emits P m -> (forall a, emits P (k a)) -> emits P (bind m k).
Proof.
  intros Hm Hk w. unfold bind. destruct (Hm w) as (n1 & E1 & F1).
  destruct (m w) as [[a|e] w1]; simpl in *.
  - destruct (Hk a w1) as (n2 & E2 & F2). exists (n1 ++ n2).
    rewrite E2, E1, <- app_assoc. split; [reflexivity|]. apply Forall_app. auto.
  - exists n1. auto.
Qed.

Lemma emits_try_except P {A} (body : M A) handler :
  emits P body -> (forall e, emits P (handler e)) -> emits P (try_except body handler).
Proof.
  intros Hb Hh w. unfold try_except. destruct (Hb w) as (n1 & E1 & F1).
  destruct (body w) as [[a|e] w1]; simpl in *.
  - exists n1. auto.
  - destruct (Hh e w1) as (n2 & E2 & F2). exists (n1 ++ n2).
    rewrite E2, E1, <- app_assoc. split; [reflexivity|]. apply Forall_app. auto.
Qed.

Lemma emits_try_finally P {A} (body : M A) cleanup :
  emits P body -> emits P cleanup -> emits P (try_finally body cleanup).
Proof.
  intros Hb Hc w. unfold try_finally. destruct (Hb w) as (n1 & E1 & F1).
  destruct (body w) as [r w1]. simpl in *. destruct (Hc w1) as (n2 & E2 & F2).
  exists (n1 ++ n2). split; [|apply Forall_app; auto].
  destruct (cleanup w1) as [[[]|e] w2]; simpl in *; now rewrite E2, E1, <- app_assoc.
Qed.

Lemma emits_keeps_trace P {A} (m : M A) :
  (forall w, trace (snd (m w)) = trace w) -> emits P m.
Proof. intros H w. exists []. rewrite H, app_nil_r. auto. Qed.

Lemma emits_write_bytes P path data : emits P (write_bytes path data).
Proof. apply emits_keeps_trace. reflexivity. Qed.

Lemma emits_read_bytes P path : emits P (read_bytes path).
Proof.
  apply emits_keeps_trace. intros w. unfold read_bytes. now destruct (files w !! path).
Qed.

Lemma emits_remove P path : emits P (remove path).
Proof.
  apply emits_keeps_trace. intros w. unfold remove. now destruct (files w !! path).
Qed.

Lemma emits_raise_for_status P url r : emits P (raise_for_status url r).
Proof.
  apply emits_keeps_trace. intros w.
  destruct (raise_for_status_cases url r w) as [[-> _]|[e [-> _]]]; reflexivity.
Qed.

Lemma emits_response_json P r : emits P (response_json r).
Proof.
  apply emits_keeps_trace. intros w. unfold response_json. now destruct (body_json r).
Qed.

Lemma emits_getitem_key P j key : emits P (getitem_key j key).
Proof.
  apply emits_keeps_trace. intros w. unfold getitem_key. destruct j; try reflexivity.
  now destruct (assoc (str key) l).
Qed.

Lemma emits_getitem_0 P j : emits P (getitem_0 j).
Proof.
  apply emits_keeps_trace. intros w. unfold getitem_0.
  destruct j as [| | | [|]|[|]|]; reflexivity.
Qed.

Lemma emits_jstrip P j : emits P (jstrip j).
Proof. apply emits_keeps_trace. intros w. destruct j; reflexivity. Qed.

Lemma emits_requests_post (P : event -> Prop) url hs body o :
  P (Post url hs body) -> emits P (requests_post url hs body o).
Proof.
  intros H. unfold requests_post. apply emits_bind; [now apply emits_emit|].
  intros _. apply emits_external.
Qed.

Create HintDb emits.

#[local] Hint Resolve emits_ret emits_raise emits_external emits_write_bytes
  emits_read_bytes emits_remove emits_raise_for_status emits_response_json
  emits_getitem_key emits_getitem_0 emits_jstrip : emits.

Ltac script_ev :=
  first [ left; reflexivity
        | right; left; eexists; reflexivity
        | right; right; left; eexists; reflexivity
        | right; right; right; eexists; reflexivity ].

Ltac emits_steps :=
  repeat first
    [ apply emits_bind; [|intros ?]
    | apply emits_try_finally
    | apply emits_try_except; [|intros ?]
    | solve [auto with emits]
    | apply emits_requests_post; script_ev
    | unfold logging_info, logging_error; apply emits_emit; script_ev
    | apply emits_emit; script_ev ].

Lemma emits_process_voice_input g env :
  emits (script_event g) (process_voice_input g env).
Proof.
  unfold process_voice_input.
  apply emits_bind; [auto with emits|intros ?].
  apply emits_bind; [auto with emits|intros ?].
  apply emits_bind; [emits_steps|intros ?].
  apply emits_bind; [emits_steps|intros heard].
  destruct heard as [audio|]; [|auto with emits].
  cbv zeta. emits_steps.
Qed.

Lemma emits_text_to_speech g env text :
  emits (script_event g) (text_to_speech g env text).
Proof.
  unfold text_to_speech. cbv zeta.
  apply emits_bind; [emits_steps|intros ?].
  apply emits_bind; [emits_steps|intros r].
  destruct (status_code r =? 200); emits_steps.
Qed.

Lemma emits_query_llm g env prompt :
  emits (script_event g) (query_llm g env prompt).
Proof. unfold query_llm. cbv zeta. emits_steps. Qed.

Lemma emits_handle db g env st raw : emits (script_event g) (handle db g env st raw).
Proof.
  pose proof (emits_text_to_speech g (tts env)) as Ht.
  pose proof (emits_query_llm g (chat env)) as Hq.
  destruct raw as [|c raw]; [apply emits_ret|]. unfold handle.
  destruct (st && re_match db stop_pattern (c :: raw)).
  { apply emits_bind; [apply Ht|intros ?; apply emits_ret]. }
  destruct (negb st && re_match db start_pattern (c :: raw)).
  { apply emits_bind; [apply Ht|intros ?; apply emits_ret]. }
  destruct st; [|apply emits_ret].
  apply emits_bind; [apply Hq|intros reply].
  apply emits_bind; [apply Ht|intros ?; apply emits_ret].
Qed.

Lemma emits_main_loop db g envs st : emits (script_event g) (main_loop db g envs st).
Proof.
  revert st. induction envs as [|env envs IH]; intros st; [apply emits_ret|].
  simpl. apply emits_bind; [|intros st1; apply IH].
  unfold iteration. apply emits_bind; [apply emits_process_voice_input|].
  intros raw. apply emits_handle.
Qed.

Lemma emits_main db key typed envs :
  emits (script_event (Globals key (strip typed))) (main db key typed envs).
Proof.
  unfold main. cbv zeta.
  apply emits_bind; [apply emits_emit; script_ev|intros ?].
  apply emits_bind; [destruct (strip typed); emits_steps|intros ?].
  apply emits_bind; [emits_steps|intros ?].
  apply emits_main_loop.
Qed.

Lemma stt_url_not_chat : stt_url <> chat_url.
Proof. intros H. apply String.eqb_eq in H. vm_compute in H. discriminate H. Qed.

Lemma tts_url_not_chat : tts_url <> chat_url.
Proof. intros H. apply String.eqb_eq in H. vm_compute in H. discriminate H. Qed.

Lemma script_event_authorised g e : script_event g e -> post_call_is_authorised g e.
Proof.
  intros [H|[[a ->]|[[t ->]|[q ->]]]].
  - destruct e; try exact I. discriminate H.
  - simpl. auto.
  - simpl. auto.
  - simpl. auto.
Qed.

Lemma script_event_system g e : script_event g e -> chat_system_is (system_prompt g) e.
Proof.
  intros [H|[[a ->]|[[t ->]|[q ->]]]].
  - destruct e; try exact I. discriminate H.
  - intros H. destruct (stt_url_not_chat H).
  - intros H. destruct (tts_url_not_chat H).
  - intros _. eexists _, _, _. reflexivity.
Qed.

(** X15. Every call of [requests.post] the script makes in a session
    names one of its three endpoints as URL and passes the header
    Authorization: Bearer followed by the key read at startup; and the
    trace only grows.  (What the library sends on after a redirect is its
    own doing and not recorded.) *)
Theorem post_calls_are_authorised db key typed envs w :
  exists new,
    trace (snd (main db key typed envs w)) = trace w ++ new
    /\ Forall (post_call_is_authorised (Globals key (strip typed))) new.
Proof.
  destruct (emits_main db key typed envs w) as (new & E & F).
  exists new. split; [exact E|].
  eapply Forall_impl; [exact F|]. intros e. apply script_event_authorised.
Qed.

(** X16. The name typed at startup reaches every chat request of the
    session: the system message is the base instruction followed by the
    sentence naming the user, with the typed line stripped of surrounding
    whitespace as the name; when the line is empty or blank, the system
    message is the base instruction alone. *)
Theorem session_is_personalised db key typed envs w :
  let sys := match strip typed with
             | [] => sys_msg
             | _ :: _ => sys_msg ++ str " The user's name is " ++ strip typed ++ str "."
             end in
  (exists new,
     trace (snd (main db key typed envs w)) = trace w ++ new
     /\ Forall (chat_system_is sys) new)
  /\ (forallb isspace typed = true -> sys = sys_msg).
Proof.
  cbv zeta. split.
  - destruct (emits_main db key typed envs w) as (new & E & F).
    exists new. split; [exact E|].
    eapply Forall_impl; [exact F|]. intros e. apply script_event_system.
  - intros H. now rewrite (strip_blank typed H).
Qed.

Lemma session_is_personalised_witness :
  let sys := match strip [32; 9; 10] with
             | [] => sys_msg
             | _ :: _ => sys_msg ++ str " The user's name is " ++ strip [32; 9; 10] ++ str "."
             end in
  forallb isspace [32; 9; 10] = true /\ sys = sys_msg.
Proof.
  split; [reflexivity|].
  exact (proj2 (session_is_personalised excerpt_db (str "k") [32; 9; 10] [] empty_world)
           eq_refl).
Defined.

(** ** The classification under padding and change of case *)

Lemma lstrip_app_kept p (a b : pystr) :
  lstrip p a <> [] -> lstrip p (a ++ b) = lstrip p a ++ b.
Proof.
  induction a as [|c a IH]; simpl; [congruence|].
  destruct (p c); [exact IH|reflexivity].
Qed.

Lemma rstrip_app_all p (a post : pystr) :
  forallb p post = true -> rstrip p (a ++ post) = rstrip p a.
Proof.
  intros H. unfold rstrip. rewrite rev_app_distr, lstrip_app; [reflexivity|].
  rewrite forallb_forall in *. intros x Hx. apply H. now apply in_rev.
Qed.

Lemma strip_padding p (pre t post : pystr) :
  forallb p pre = true -> forallb p post = true ->
  rstrip p (lstrip p (pre ++ t ++ post)) = rstrip p (lstrip p t).
Proof.
  intros Hpre Hpost. rewrite lstrip_app by exact Hpre.
  destruct (lstrip p t) as [|c r] eqn:E.
  - destruct (lstrip_split p t) as [pre' [Ht Hp]]. rewrite E, app_nil_r in Ht. subst pre'.
    rewrite lstrip_app by exact Hp. now rewrite (lstrip_all p post Hpost).
  - rewrite lstrip_app_kept by (rewrite E; discriminate).
    rewrite E. now apply rstrip_app_all.
Qed.

Lemma lstrip_map p (f : N -> N) (s : pystr) :
  (forall c, p (f c) = p c) -> lstrip p (map f s) = map f (lstrip p s).
Proof.
  intros Hf. induction s as [|c s IH]; [reflexivity|].
  simpl. rewrite Hf. destruct (p c); [exact IH|reflexivity].
Qed.

Lemma rstrip_map p (f : N -> N) (s : pystr) :
  (forall c, p (f c) = p c) -> rstrip p (map f s) = map f (rstrip p s).
Proof.
  intros Hf. unfold rstrip.
  now rewrite <- List.map_rev, (lstrip_map p f _ Hf), List.map_rev.
Qed.

Lemma classify_by_strip db (t t' : pystr) :
  unicode_laws db ->
  map (casefold db) (strip_nonword db t') = map (casefold db) (strip_nonword db t) ->
  classify db t' = classify db t.
Proof.
  intros laws H. unfold classify.
  rewrite <- !(exact_wordb_stop db laws), <- !(exact_wordb_start db laws).
  unfold exact_wordb. now rewrite H.
Qed.

(** X17. Non-word characters around a transcript (punctuation, spaces,
    line ends) never change how it is classified. *)
Theorem padding_does_not_matter db (pre t post : pystr) :
  unicode_laws db ->
  forallb (not_word db) pre = true -> forallb (not_word db) post = true ->
  classify db (pre ++ t ++ post) = classify db t.
Proof.
  intros laws Hpre Hpost. apply classify_by_strip; [exact laws|].
  unfold strip_nonword. now rewrite strip_padding.
Qed.

Lemma padding_does_not_matter_witness :
  unicode_laws excerpt_db
  /\ classify excerpt_db (str "... " ++ str "Start" ++ [33; 8230; 10])
     = classify excerpt_db (str "Start").
Proof.
  split; [exact excerpt_laws|].
  exact (padding_does_not_matter excerpt_db (str "... ") (str "Start") [33; 8230; 10]
           excerpt_laws eq_refl eq_refl).
Defined.

Lemma range_true a b c : a <= c <= b -> (a <=? c) && (c <=? b) = true.
Proof. intros [H1 H2]. apply andb_true_iff. split; now apply N.leb_le. Qed.

Lemma range_false a b c : ~ (a <= c <= b) -> (a <=? c) && (c <=? b) = false.
Proof.
  intros H. apply andb_false_iff.
  destruct (N.le_gt_cases a c) as [H1|H1]; [right|left]; apply N.leb_gt; lia.
Qed.

Lemma in_range_dec a b c : a <= c <= b \/ ~ (a <= c <= b).
Proof. lia. Qed.

Lemma ascii_toupper_lower c : 97 <= c <= 122 -> ascii_toupper c = c - 32.
Proof. intros H. unfold ascii_toupper. now rewrite range_true. Qed.

Lemma ascii_toupper_other c : ~ (97 <= c <= 122) -> ascii_toupper c = c.
Proof. intros H. unfold ascii_toupper. now rewrite range_false. Qed.

Lemma ascii_tolower_upper c : 65 <= c <= 90 -> ascii_tolower c = c + 32.
Proof. intros H. unfold ascii_tolower. now rewrite range_true. Qed.

Lemma ascii_tolower_other c : ~ (65 <= c <= 90) -> ascii_tolower c = c.
Proof. intros H. unfold ascii_tolower. now rewrite range_false. Qed.

Lemma casefold_ascii db c : c < 128 -> casefold db c = ascii_tolower c.
Proof. intros H. unfold casefold. apply N.ltb_lt in H. now rewrite H. Qed.

Lemma is_word_letter db c : 65 <= c <= 90 \/ 97 <= c <= 122 -> is_word db c = true.
Proof.
  intros H. unfold is_word, isalnum.
  assert (Hc : (c <? 128) = true) by (apply N.ltb_lt; lia). rewrite Hc.
  unfold ascii_isalnum, ascii_isalpha.
  destruct H as [H|H]; rewrite (range_true _ _ c H); now rewrite ?orb_true_r.
Qed.

Lemma casefold_toupper db c : casefold db (ascii_toupper c) = casefold db c.
Proof.
  destruct (in_range_dec 97 122 c) as [H|H].
  - rewrite (ascii_toupper_lower c H), !casefold_ascii by lia.
    rewrite (ascii_tolower_upper (c - 32)), (ascii_tolower_other c) by lia. lia.
  - now rewrite (ascii_toupper_other c H).
Qed.

Lemma casefold_tolower db c : casefold db (ascii_tolower c) = casefold db c.
Proof.
  destruct (in_range_dec 65 90 c) as [H|H].
  - rewrite (ascii_tolower_upper c H), !casefold_ascii by lia.
    rewrite (ascii_tolower_other (c + 32)), (ascii_tolower_upper c) by lia. reflexivity.
  - now rewrite (ascii_tolower_other c H).
Qed.

Lemma not_word_toupper db c : not_word db (ascii_toupper c) = not_word db c.
Proof.
  destruct (in_range_dec 97 122 c) as [H|H].
  - rewrite (ascii_toupper_lower c H). unfold not_word.
    now rewrite !is_word_letter by lia.
  - now rewrite (ascii_toupper_other c H).
Qed.

Lemma not_word_tolower db c : not_word db (ascii_tolower c) = not_word db c.
Proof.
  destruct (in_range_dec 65 90 c) as [H|H].
  - rewrite (ascii_tolower_upper c H). unfold not_word.
    now rewrite !is_word_letter by lia.
  - now rewrite (ascii_tolower_other c H).
Qed.

Lemma classify_map db (f : N -> N) (t : pystr) :
  unicode_laws db ->
  (forall c, not_word db (f c) = not_word db c) ->
  (forall c, casefold db (f c) = casefold db c) ->
  classify db (map f t) = classify db t.
Proof.
  intros laws Hw Hc. apply classify_by_strip; [exact laws|].
  unfold strip_nonword. rewrite (lstrip_map _ f _ Hw), (rstrip_map _ f _ Hw).
  rewrite List.map_map. apply List.map_ext. exact Hc.
Qed.

(** X18. The case of ASCII letters never changes how a transcript is
    classified: upper-casing or lower-casing them gives the same class. *)
Theorem ascii_case_does_not_matter db (t : pystr) :
  unicode_laws db ->
  classify db (map ascii_toupper t) = classify db t
  /\ classify db (map ascii_tolower t) = classify db t.
Proof.
  intros laws. split; apply classify_map; try exact laws.
  - apply not_word_toupper.
  - apply casefold_toupper.
  - apply not_word_tolower.
  - apply casefold_tolower.
Qed.

Lemma ascii_case_does_not_matter_witness :
  unicode_laws excerpt_db
  /\ classify excerpt_db (str " STOP. ") = classify excerpt_db (str " sToP. ").
Proof.
  split; [exact excerpt_laws|].
  exact (proj1 (ascii_case_does_not_matter excerpt_db (str " sToP. ") excerpt_laws)).
Defined.

(** ** Sequences of passes *)

(** X19. Pause and resume: from Listening, a pass that hears the stop word
    followed by a pass that hears the start word ends Listening again,
    having spoken the two acknowledgements in that order and asked the
    ChatClient nothing (the Speaker calls returning). *)
Theorem pause_resume_round_trip db g env1 env2 w raw1 w1 raw2 w2 :
  process_voice_input g (capture env1) w = (Ok raw1, w1) ->
  re_match db stop_pattern raw1 = true ->
  speaker_returns (tts env1) ->
  process_voice_input g (capture env2) (snd (iteration db g env1 true w)) = (Ok raw2, w2) ->
  re_match db start_pattern raw2 = true ->
  speaker_returns (tts env2) ->
  exists w3, main_loop db g [env1; env2] true w = (Ok true, w3)
    /\ calls w3 = calls w ++ [Call_text_to_speech stop_ack; Call_text_to_speech start_ack].
Proof.
  intros Hc1 Hm1 Hs1 Hc2 Hm2 Hs2.
  assert (E1 : exists wa, iteration db g env1 true w = (Ok false, wa)
                          /\ calls wa = calls w ++ [Call_text_to_speech stop_ack]).
  { rewrite (iteration_after_capture db g env1 true w raw1 w1 Hc1).
    rewrite (handle_stop db g env1 raw1 Hm1).
    destruct (speak_then_ret_run g (tts env1) stop_ack false w1)
      as (r & wa & E & Hcalls & _ & Hr).
    exists wa. rewrite E, (Hr Hs1). split; [reflexivity|].
    now rewrite Hcalls, (capture_calls _ _ _ _ _ Hc1). }
  destruct E1 as (wa & E1 & Hca). rewrite E1 in Hc2. simpl in Hc2.
  assert (E2 : exists wb, iteration db g env2 false wa = (Ok true, wb)
                          /\ calls wb = calls wa ++ [Call_text_to_speech start_ack]).
  { rewrite (iteration_after_capture db g env2 false wa raw2 w2 Hc2).
    rewrite (handle_start db g env2 raw2 Hm2).
    destruct (speak_then_ret_run g (tts env2) start_ack true w2)
      as (r & wb & E & Hcalls & _ & Hr).
    exists wb. rewrite E, (Hr Hs2). split; [reflexivity|].
    now rewrite Hcalls, (capture_calls _ _ _ _ _ Hc2). }
  destruct E2 as (wb & E2 & Hcb).
  exists wb. split.
  - simpl. unfold bind at 1. rewrite E1. unfold bind at 1. rewrite E2. reflexivity.
  - now rewrite Hcb, Hca, <- app_assoc.
Qed.

Lemma pause_resume_round_trip_witness :
  exists w3, main_loop excerpt_db demo_globals [turn "Stop."; turn "start"] true empty_world
             = (Ok true, w3)
    /\ calls w3 = [Call_text_to_speech stop_ack; Call_text_to_speech start_ack].
Proof.
  refine (pause_resume_round_trip excerpt_db demo_globals (turn "Stop.") (turn "start")
            empty_world (str "Stop.") _ (str "start") _ _ _ _ _ _ _).
  - vm_compute. reflexivity.
  - vm_compute. reflexivity.
  - eexists. split; [reflexivity|]. intros _. split; reflexivity.
  - vm_compute. reflexivity.
  - vm_compute. reflexivity.
  - eexists. split; [reflexivity|]. intros _. split; reflexivity.
Defined.

(** X20. A transcription made of whitespace only counts as no transcript:
    the stripped text is empty, so the pass ends there, in either state,
    with the flag unchanged and neither the ChatClient nor the Speaker
    invoked. *)
Theorem blank_transcription_is_skipped db g env st w audio r :
  mic_open (capture env) = Ok tt -> mic_adjust (capture env) = Ok tt ->
  mic_listen (capture env) = Ok audio ->
  stt_answer (capture env) = Ok r -> ~ (400 <= status_code r < 600) ->
  forallb isspace (body_text r) = true ->
  exists w1, iteration db g env st w = (Ok st, w1) /\ calls w1 = calls w.
Proof.
  intros Ho Had Hl Ha Hs Hb.
  pose proof (process_voice_input_uploaded g (capture env) w audio Ho Had Hl) as H.
  cbv zeta in H. rewrite Ha in H. destruct H as [_ H]. specialize (H Hs).
  rewrite (strip_blank _ Hb) in H.
  eexists. split.
  - rewrite (iteration_after_capture db g env st w [] _ H). reflexivity.
  - exact (capture_calls _ _ _ _ _ H).
Qed.

Lemma blank_transcription_is_skipped_witness :
  exists w1, iteration excerpt_db demo_globals (turn "  ") true empty_world = (Ok true, w1)
             /\ calls w1 = calls empty_world.
Proof.
  refine (blank_transcription_is_skipped excerpt_db demo_globals (turn "  ") true
            empty_world [] (ok_response "  " None) eq_refl eq_refl eq_refl eq_refl _ eq_refl).
  simpl. lia.
Defined.

(** ** Failures that end the session *)

(** X21. A microphone that cannot be opened or calibrated ends the
    session at that pass: the exception leaves the loop, nothing is logged
    or sent, and no later pass runs. *)
Theorem microphone_failure_ends_the_loop db g env envs st w e :
  mic_open (capture env) = Raise e
  \/ (mic_open (capture env) = Ok tt /\ mic_adjust (capture env) = Raise e) ->
  main_loop db g (env :: envs) st w = (Raise e, w).
Proof.
  intros H. simpl. unfold bind at 1. unfold iteration, bind at 1.
  destruct (process_voice_input_early g (capture env) w) as [H1 H2].
  destruct H as [Ho|[Ho Had]].
  - now rewrite (H1 e Ho).
  - now rewrite (H2 e Ho Had).
Qed.

Lemma microphone_failure_ends_the_loop_witness :
  main_loop excerpt_db demo_globals
    [IterationEnv (CaptureEnv (Raise no_microphone) (Ok tt) (Ok []) (Ok (ok_response "" None)))
       (chat_up "Hi.") speaker_up; turn "never heard"] true empty_world
  = (Raise no_microphone, empty_world).
Proof.
  refine (microphone_failure_ends_the_loop excerpt_db demo_globals _ [turn "never heard"]
            true empty_world no_microphone _).
  left. reflexivity.
Defined.

(** X22. A Speaker call that raises ends the session, whichever branch
    made it: on the acknowledgement of stop the flag is never set to
    false, and on a regular turn the reply already obtained is lost. *)
Theorem speaker_failure_ends_the_loop db g env envs w raw w1 e :
  process_voice_input g (capture env) w = (Ok raw, w1) ->
  (forall text w', fst (text_to_speech g (tts env) text w') = Raise e) ->
  (re_match db stop_pattern raw = true ->
     fst (main_loop db g (env :: envs) true w) = Raise e)
  /\ (re_match db start_pattern raw = true ->
        fst (main_loop db g (env :: envs) false w) = Raise e)
  /\ (forall reply wq, raw <> [] -> re_match db stop_pattern raw = false ->
        query_llm g (chat env) raw w1 = (Ok reply, wq) ->
        fst (main_loop db g (env :: envs) true w) = Raise e).
Proof.
  intros Hcap Ht.
  assert (Hack : forall text (b : bool) w',
             fst ((let* _ := text_to_speech g (tts env) text in ret b) w') = Raise e).
  { intros text b w'. rewrite bind_then_ret. simpl. now rewrite Ht. }
  assert (Hloop : forall st, fst (handle db g env st raw w1) = Raise e ->
                             fst (main_loop db g (env :: envs) st w) = Raise e).
  { intros st H. simpl. unfold bind at 1.
    rewrite (iteration_after_capture db g env st w raw w1 Hcap).
    destruct (handle db g env st raw w1) as [[b|e'] w2]; simpl in *; congruence. }
  split; [|split].
  - intros Hm. apply Hloop. rewrite (handle_stop db g env raw Hm). apply Hack.
  - intros Hm. apply Hloop. rewrite (handle_start db g env raw Hm). apply Hack.
  - intros reply wq Hne Hns Hq. apply Hloop.
    rewrite (handle_regular db g env raw Hne Hns).
    unfold chat_turn, bind at 1. rewrite Hq. apply Hack.
Qed.

Lemma speaker_failure_ends_the_loop_witness :
  fst (main_loop excerpt_db demo_globals
         [IterationEnv (heard "Stop") (chat_up "Hi.")
            (TtsEnv (Raise connection_refused) (Ok tt) (Ok tt)); turn "never heard"]
         true empty_world)
  = Raise connection_refused.
Proof.
  refine (proj1 (speaker_failure_ends_the_loop excerpt_db demo_globals
                   (IterationEnv (heard "Stop") (chat_up "Hi.")
                      (TtsEnv (Raise connection_refused) (Ok tt) (Ok tt)))
                   [turn "never heard"] empty_world (str "Stop") _ connection_refused _ _) _).
  - vm_compute. reflexivity.
  - intros text w'. cbn [tts].
    now rewrite (text_to_speech_unanswered demo_globals
                   (TtsEnv (Raise connection_refused) (Ok tt) (Ok tt)) text w'
                   connection_refused eq_refl).
  - vm_compute. reflexivity.
Defined.
